(** * Guesscasso: the round controller of [game.js]

    A shallow embedding of the [Game] React component: its state, its
    event handlers, the effects that run after a render, and the timers
    and requests it leaves in flight.  JavaScript numbers that hold
    integers are [Z]; the [loaded] object, keyed by frame index, is a
    [gmap nat bool]; the set of live [setInterval] handles is a
    [gset nat]. *)

From Stdlib Require Import ZArith.
From stdpp Require Import base decidable option list gmap strings pretty.

(** ** Constants of [Game] *)

Definition TIME_PER_ROUND : Z := 20.
Definition NUM_IMAGES : Z := 10.

(** ** The frame index shown for an elapsed time

    [const divisor = Math.floor(TIME_PER_ROUND / NUM_IMAGES);
     const newImageIndex =
       Math.min(Math.floor(timeElapsed / divisor), NUM_IMAGES - 1);]
    On integers [Math.floor (a / b)] with [b > 0] is [Z.div]. *)

Definition divisor : Z := (TIME_PER_ROUND / NUM_IMAGES)%Z.

Definition newImageIndex (timeElapsed : Z) : Z :=
  Z.min (timeElapsed / divisor) (NUM_IMAGES - 1).

(** ** The image data and the preload barrier *)

Record ImageData := mkImageData {
  images : list string;
  loaded : gmap nat bool
}.

(** [useState({ images: [], loaded: {} })], also what [startGame] sets. *)
Definition emptyImageData : ImageData := mkImageData [] ∅.

(** [prev => ({ ...prev, images: data.images })] of [fetchImage]. *)
Definition setImages (imgs : list string) (prev : ImageData) : ImageData :=
  mkImageData imgs (loaded prev).

(** [prev => ({ ...prev, loaded: { ...prev.loaded, [index]: true } })],
    the updater of both [handleImageLoad] and [handleImageError]. *)
Definition markLoaded (index : nat) (prev : ImageData) : ImageData :=
  mkImageData (images prev) (<[index := true]> (loaded prev)).

(** [Object.values(o).every(loaded => loaded)] *)
Definition every_loaded (o : gmap nat bool) : bool :=
  forallb (λ kv, snd kv) (map_to_list o).

(** The [allImagesReady] memo. *)
Definition allImagesReady (d : ImageData) : bool :=
  if bool_decide (length (images d) = 0) then false
  else
    let loadedCount := size (loaded d) in
    let allLoaded := every_loaded (loaded d) in
    bool_decide (loadedCount = length (images d)) && allLoaded.

(** How a frame's asset load finished: [onLoad] or [onError]. *)
Inductive LoadResult := LoadOk | LoadFailed.

(** The image data right after the payload of a round with frames [imgs]
    is stored over the data that [startGame] cleared. *)
Definition register (imgs : list string) : ImageData :=
  setImages imgs emptyImageData.

(** ** The component state *)

(** [useState('initial')]: 'initial', 'loading', 'running', 'ended'. *)
Inductive GameState := initial | loading | running | ended.

Global Instance GameState_eq_dec : EqDecision GameState.
Proof. solve_decision. Defined.

(** Modelled from the spec: the session store behind [GameContext]
    ([./gameContext] is not among the sources).  It holds the cumulative
    score and the round counter, both starting at 0, and the category and
    answer pairs of the current round; [addToScore] adds its argument to
    the score, [incrementRounds] adds one to the counter, and the two
    [update] functions replace the stored pair. *)
Record GameContext := mkContext {
  score : Z;
  numRounds : Z;
  categories : list string;
  correctWords : list string
}.

Definition addToScore (delta : Z) (c : GameContext) : GameContext :=
  mkContext (score c + delta) (numRounds c) (categories c) (correctWords c).

Definition incrementRounds (c : GameContext) : GameContext :=
  mkContext (score c) (numRounds c + 1) (categories c) (correctWords c).

Definition updateCategories (cs : list string) (c : GameContext) : GameContext :=
  mkContext (score c) (numRounds c) cs (correctWords c).

Definition updateCorrectWords (ws : list string) (c : GameContext) : GameContext :=
  mkContext (score c) (numRounds c) (categories c) ws.

(** The parsed body of a [GET /api/generate] response that holds its three
    arrays, of any lengths.  A body that parses but lacks one of them is
    not modelled: the component would store [undefined] and read its
    [length] in a later render. *)
Record Payload := mkPayload {
  data_images : list string;
  data_categories : list string;
  data_correctWords : list string
}.

(** The body of a [POST /api/evaluate] request that is in flight. *)
Record EvalRequest := mkEvalRequest {
  answer : string;
  userGuess : string
}.

(** The component with what it has left outside React: the two refs, the
    live intervals (and the handle the next [setInterval] returns), the
    number of [/api/generate] calls in flight, the [/api/evaluate] calls in
    flight, and the lines written with [console.error]. *)
Record Game := mkGame {
  gameState : GameState;
  timeLeft : Z;
  guess : string;
  currentImageIndex : Z;
  imageData : ImageData;
  context : GameContext;
  isGameRunningRef : bool;
  timeLeftRef : Z;
  intervals : gset nat;
  nextInterval : nat;
  generating : nat;
  evaluating : list EvalRequest;
  console : list string
}.

Definition setGameState (v : GameState) (g : Game) : Game :=
  mkGame v (timeLeft g) (guess g) (currentImageIndex g) (imageData g) (context g) (isGameRunningRef g) (timeLeftRef g) (intervals g) (nextInterval g) (generating g) (evaluating g) (console g).

Definition setTimeLeft (v : Z) (g : Game) : Game :=
  mkGame (gameState g) v (guess g) (currentImageIndex g) (imageData g) (context g) (isGameRunningRef g) (timeLeftRef g) (intervals g) (nextInterval g) (generating g) (evaluating g) (console g).

Definition setGuess (v : string) (g : Game) : Game :=
  mkGame (gameState g) (timeLeft g) v (currentImageIndex g) (imageData g) (context g) (isGameRunningRef g) (timeLeftRef g) (intervals g) (nextInterval g) (generating g) (evaluating g) (console g).

Definition setCurrentImageIndex (v : Z) (g : Game) : Game :=
  mkGame (gameState g) (timeLeft g) (guess g) v (imageData g) (context g) (isGameRunningRef g) (timeLeftRef g) (intervals g) (nextInterval g) (generating g) (evaluating g) (console g).

Definition setImageData (v : ImageData) (g : Game) : Game :=
  mkGame (gameState g) (timeLeft g) (guess g) (currentImageIndex g) v (context g) (isGameRunningRef g) (timeLeftRef g) (intervals g) (nextInterval g) (generating g) (evaluating g) (console g).

Definition setContext (v : GameContext) (g : Game) : Game :=
  mkGame (gameState g) (timeLeft g) (guess g) (currentImageIndex g) (imageData g) v (isGameRunningRef g) (timeLeftRef g) (intervals g) (nextInterval g) (generating g) (evaluating g) (console g).

Definition setIsGameRunningRef (v : bool) (g : Game) : Game :=
  mkGame (gameState g) (timeLeft g) (guess g) (currentImageIndex g) (imageData g) (context g) v (timeLeftRef g) (intervals g) (nextInterval g) (generating g) (evaluating g) (console g).

Definition setTimeLeftRef (v : Z) (g : Game) : Game :=
  mkGame (gameState g) (timeLeft g) (guess g) (currentImageIndex g) (imageData g) (context g) (isGameRunningRef g) v (intervals g) (nextInterval g) (generating g) (evaluating g) (console g).

Definition setIntervals (v : gset nat) (g : Game) : Game :=
  mkGame (gameState g) (timeLeft g) (guess g) (currentImageIndex g) (imageData g) (context g) (isGameRunningRef g) (timeLeftRef g) v (nextInterval g) (generating g) (evaluating g) (console g).

Definition setNextInterval (v : nat) (g : Game) : Game :=
  mkGame (gameState g) (timeLeft g) (guess g) (currentImageIndex g) (imageData g) (context g) (isGameRunningRef g) (timeLeftRef g) (intervals g) v (generating g) (evaluating g) (console g).

Definition setGenerating (v : nat) (g : Game) : Game :=
  mkGame (gameState g) (timeLeft g) (guess g) (currentImageIndex g) (imageData g) (context g) (isGameRunningRef g) (timeLeftRef g) (intervals g) (nextInterval g) v (evaluating g) (console g).

Definition setEvaluating (v : list EvalRequest) (g : Game) : Game :=
  mkGame (gameState g) (timeLeft g) (guess g) (currentImageIndex g) (imageData g) (context g) (isGameRunningRef g) (timeLeftRef g) (intervals g) (nextInterval g) (generating g) v (console g).

Definition setConsole (v : list string) (g : Game) : Game :=
  mkGame (gameState g) (timeLeft g) (guess g) (currentImageIndex g) (imageData g) (context g) (isGameRunningRef g) (timeLeftRef g) (intervals g) (nextInterval g) (generating g) (evaluating g) v.

Definition updateImageData (f : ImageData → ImageData) (g : Game) : Game :=
  setImageData (f (imageData g)) g.

Definition updateContext (f : GameContext → GameContext) (g : Game) : Game :=
  setContext (f (context g)) g.

Definition console_error (line : string) (g : Game) : Game :=
  setConsole (console g ++ [line]) g.

(** The state at mount. *)
Definition init : Game :=
  mkGame initial TIME_PER_ROUND "" 0 emptyImageData (mkContext 0 0 [] [])
         false TIME_PER_ROUND ∅ 0 0 [] [].

(** ** Derived state (the [useMemo] values) *)

Definition isNewGame (g : Game) : bool :=
  bool_decide (numRounds (context g) = 0%Z).
Definition isGameRunning (g : Game) : bool :=
  bool_decide (gameState g = running).
Definition isLoading (g : Game) : bool :=
  bool_decide (gameState g = loading).
Definition isGameEnded (g : Game) : bool :=
  bool_decide (gameState g = ended).
Definition ready (g : Game) : bool := allImagesReady (imageData g).

(** ** Handlers *)

(** What an [async] function's promise settles to. *)
Inductive Settled := fulfilled | rejected.

Definition stopGame (g : Game) : Game := setGameState ended g.

Definition clearInterval (id : nat) (g : Game) : Game :=
  setIntervals (intervals g ∖ {[id]}) g.

(** [setInterval(..., 1000)]: a fresh handle becomes live. *)
Definition setInterval (g : Game) : Game :=
  setNextInterval (S (nextInterval g))
    (setIntervals ({[nextInterval g]} ∪ intervals g) g).

(** [startGame] up to its [await]: the resets, then the request of
    [fetchImage] goes out. *)
Definition startGame (g : Game) : Game :=
  let g := setGameState loading g in
  let g := setTimeLeft TIME_PER_ROUND g in
  let g := updateContext incrementRounds g in
  let g := setGuess "" g in
  let g := setCurrentImageIndex 0 g in
  let g := setImageData emptyImageData g in
  let g := updateContext (updateCategories []) g in
  let g := updateContext (updateCorrectWords []) g in
  setGenerating (S (generating g)) g.

(** [fetchImage] from its [await]s on: [Some data] is the parsed response,
    [None] a failed [fetch] or [response.json()], which is logged and
    thrown again. *)
Definition fetchImage_resume (resp : option Payload) (g : Game) : Game * Settled :=
  match resp with
  | Some data =>
      let g := updateImageData (setImages (data_images data)) g in
      let g := updateContext (updateCategories (data_categories data)) g in
      let g := updateContext (updateCorrectWords (data_correctWords data)) g in
      (g, fulfilled)
  | None => (console_error "Error fetching image:" g, rejected)
  end.

(** [startGame] from [await fetchImage()] on: [setGameState('running')] is
    reached only when [fetchImage] did not throw. *)
Definition startGame_resume (resp : option Payload) (g : Game) : Game * Settled :=
  match fetchImage_resume resp g with
  | (g, fulfilled) => (setGameState running g, fulfilled)
  | (g, rejected) => (g, rejected)
  end.

(** A template literal prints a missing array element as [undefined]. *)
Definition template (o : option string) : string := default "undefined" o.

(** [`${correctWords[0]} ${correctWords[1]}`] *)
Definition canonicalAnswer (ws : list string) : string :=
  template (ws !! 0) +:+ " " +:+ template (ws !! 1).

(** [checkAnswer] up to its [await]: the request goes out. *)
Definition checkAnswer (userGuess : string) (g : Game) : Game :=
  let answer := canonicalAnswer (correctWords (context g)) in
  setEvaluating (evaluating g ++ [mkEvalRequest answer userGuess]) g.

(** [checkAnswer] from its [await]s on: [Some sc] is [data.score] of the
    parsed response, [None] a failed call, which is caught and logged. *)
Definition checkAnswer_resume (resp : option Z) (g : Game) : Game * Settled :=
  match resp with
  | Some sc =>
      if bool_decide (sc = 1%Z) then
        let additonalScore := (timeLeftRef g * 10)%Z in
        let g := updateContext (addToScore additonalScore) g in
        (stopGame g, fulfilled)
      else (g, fulfilled)
  | None => (console_error "Error checking answer:" g, fulfilled)
  end.

Definition handleAction (submittedGuess : string) (g : Game) : Game :=
  if isGameRunning g then checkAnswer submittedGuess g else g.

Definition handleImageLoad (index : nat) (g : Game) : Game :=
  updateImageData (markLoaded index) g.

Definition handleImageError (index : nat) (g : Game) : Game :=
  let g := console_error ("Failed to load image at index " +:+ pretty index) g in
  updateImageData (markLoaded index) g.

(** [onLoad] or [onError] of the frame at index [fst m]. *)
Definition frameDone (g : Game) (m : nat * LoadResult) : Game :=
  match snd m with
  | LoadOk => handleImageLoad (fst m) g
  | LoadFailed => handleImageError (fst m) g
  end.

(** The callback of the interval with handle [id].  The updater given to
    [setTimeLeft] sees the state [timeLeft]; the elapsed time for the frame
    index is read from [timeLeftRef]. *)
Definition tick (id : nat) (g : Game) : Game :=
  if negb (isGameRunningRef g) then clearInterval id g
  else
    let prevTime := timeLeft g in
    let g :=
      if bool_decide (prevTime - 1 ≤ 0)%Z then
        let g := clearInterval id g in
        let g := stopGame g in
        setTimeLeft TIME_PER_ROUND g
      else setTimeLeft (prevTime - 1) g in
    let timeElapsed := (TIME_PER_ROUND - timeLeftRef g)%Z in
    setCurrentImageIndex (newImageIndex timeElapsed) g.

(** ** Effects *)

(** The main game loop effect.  Its callback returns nothing (the cleanup
    is the result of the inner [async] function, which React never sees),
    so an interval it starts is cleared only from inside [tick]. *)
Definition mainEffect (g : Game) : Game :=
  if negb (isGameRunning g) || negb (ready g) then g else setInterval g.

(** After the render that follows an event: each effect runs when one of
    its dependencies differs from the render before, in the order of the
    source. *)
Definition commit (prev g : Game) : Game :=
  let g := if bool_decide (isGameRunning prev = isGameRunning g) then g
           else setIsGameRunningRef (isGameRunning g) g in
  let g := if bool_decide (timeLeft prev = timeLeft g) then g
           else setTimeLeftRef (timeLeft g) g in
  if bool_decide (isGameRunning prev = isGameRunning g ∧ ready prev = ready g)
  then g else mainEffect g.

(** ** What is rendered *)

(** [disabled] of the start button. *)
Definition startDisabled (g : Game) : bool :=
  isLoading g
  || (bool_decide (0 < length (images (imageData g))) && negb (ready g)).

(** [startGame] can be called from the start button, shown when the game
    is not running, or from the image of the first screen. *)
Definition startClickable (g : Game) : bool :=
  (negb (isGameRunning g) && negb (startDisabled g))
  || (isNewGame g && bool_decide (gameState g = initial)).

(** The frame at [index] is rendered, so that its load events can fire. *)
Definition frameRendered (index : nat) (g : Game) : bool :=
  negb (isNewGame g && bool_decide (gameState g = initial))
  && bool_decide (index < length (images (imageData g))).

(** JSX renders a missing array element as nothing. *)
Definition jsx (o : option string) : string := default "" o.

(** The paragraph under the controls. *)
Inductive InfoPanel :=
| NoInfo
| ShowCategories (c0 c1 : string)
| ShowCorrectWords (w0 w1 : string).

Definition infoPanel (g : Game) : InfoPanel :=
  let cats := categories (context g) in
  let words := correctWords (context g) in
  if bool_decide (length (images (imageData g)) = 0) then NoInfo
  else if (isGameRunning g || isLoading g) && bool_decide (0 < length cats)
  then ShowCategories (jsx (cats !! 0)) (jsx (cats !! 1))
  else if isGameEnded g && bool_decide (0 < length words)
  then ShowCorrectWords (jsx (words !! 0)) (jsx (words !! 1))
  else NoInfo.

(** [getTimeColor], the class of the time display. *)
Definition getTimeColor (g : Game) : string :=
  if bool_decide (10 < timeLeft g)%Z then "text-green-500"
  else if bool_decide (5 < timeLeft g)%Z then "text-yellow-500"
  else "text-red-500".

(** The label of the start button, shown when the game is not running. *)
Definition startLabel (g : Game) : string :=
  if isNewGame g then "Start Game"
  else if isLoading g
          || (bool_decide (0 < length (images (imageData g))) && negb (ready g))
  then "Loading..."
  else "Next Round".

(** The opacity class of the frame at [index]:
    [index === currentImageIndex ? 'opacity-100' : 'opacity-0']. *)
Definition frameOpacity (index : nat) (g : Game) : string :=
  if bool_decide (Z.of_nat index = currentImageIndex g) then "opacity-100"
  else "opacity-0".

(** The picture area: the image of the first screen, the placeholder while
    there are no frames, or the stacked frames, with the
    ["Loading images..."] overlay while they are not all ready. *)
Inductive Screen :=
| FirstScreen
| Placeholder
| Frames (overlay : bool).

Definition screen (g : Game) : Screen :=
  if isNewGame g && bool_decide (gameState g = initial) then FirstScreen
  else if bool_decide (0 < length (images (imageData g)))
  then Frames (negb (ready g))
  else Placeholder.

(** ** Events

    Everything runs on one thread: an event is a click, a form event, a
    firing of a live interval, a frame's load result, or the settling of a
    request in flight.  Its handler runs to its next [await], the
    component renders, and the effects run, before the next event. *)
Inductive Event :=
| ClickStart
| ClickStop
| Typing (text : string)
| Submit (text : string)
| GenerateDone (resp : option Payload)
| FrameDone (index : nat) (r : LoadResult)
| Tick (id : nat)
| EvaluateDone (k : nat) (resp : option Z).

(** The handler of an event, [None] when the event cannot occur. *)
Definition handler (e : Event) (g : Game) : option Game :=
  match e with
  | ClickStart => if startClickable g then Some (startGame g) else None
  | ClickStop => if isGameRunning g then Some (stopGame g) else None
  | Typing text => if isGameRunning g then Some (setGuess text g) else None
  | Submit text => Some (handleAction text g)
  | GenerateDone resp =>
      match generating g with
      | S n => Some (fst (startGame_resume resp (setGenerating n g)))
      | O => None
      end
  | FrameDone index r =>
      if frameRendered index g then Some (frameDone g (index, r)) else None
  | Tick id => if bool_decide (id ∈ intervals g) then Some (tick id g) else None
  | EvaluateDone k resp =>
      match evaluating g !! k with
      | Some _ =>
          Some (fst (checkAnswer_resume resp
                       (setEvaluating (delete k (evaluating g)) g)))
      | None => None
      end
  end.

Definition step (e : Event) (g : Game) : option Game :=
  commit g <$> handler e g.

Fixpoint run (es : list Event) (g : Game) : option Game :=
  match es with
  | [] => Some g
  | e :: es => step e g ≫= run es
  end.

Inductive reachable : Game → Prop :=
| reachable_init : reachable init
| reachable_step g e g' : reachable g → step e g = Some g' → reachable g'.

(** The cause of a round's end is the event that made the transition from
    ['running'] to ['ended'] (the component keeps no flag of its own): a
    firing of the timer is the timeout. *)
Definition timedOut (e : Event) : bool :=
  match e with Tick _ => true | _ => false end.

(** The refs hold what the last render saw. *)
Definition refs_synced (g : Game) : Prop :=
  isGameRunningRef g = isGameRunning g ∧ timeLeftRef g = timeLeft g.

(** The state after the events [es] from mount ([init] when they cannot
    all occur). *)
Definition after (es : list Event) : Game := default init (run es init).

(** The timer runs: the game is running and all frames are ready (the
    two dependencies of the main effect). *)
Definition armed (g : Game) : bool := isGameRunning g && ready g.

(** What [startGame] sets anew for a round. *)
Definition is_reset (g : Game) : Prop :=
  timeLeft g = TIME_PER_ROUND ∧ currentImageIndex g = 0%Z ∧ guess g = "" ∧
  imageData g = emptyImageData ∧
  categories (context g) = [] ∧ correctWords (context g) = [].

(** ** Sample rounds *)

Definition frames10 : list string :=
  (λ i : nat, "frame" +:+ pretty i +:+ ".png") <$> seq 0 10.

Definition eagle_banana : Payload :=
  mkPayload frames10 ["animal"; "fruit"] ["eagle"; "banana"].

Definition no_frames : Payload :=
  mkPayload [] ["animal"; "fruit"] ["eagle"; "banana"].

(** Start, payload received. *)
Definition round_started : list Event :=
  [ClickStart; GenerateDone (Some eagle_banana)].

(** The ten frames finish loading, the one at index 3 with an error. *)
Definition frames_done : list Event :=
  (λ i : nat, FrameDone i (if bool_decide (i = 3) then LoadFailed else LoadOk))
    <$> seq 0 10.

(** A round with all frames ready; its interval has handle 0. *)
Definition round_ready : list Event := round_started ++ frames_done.

(** The same load results, as the barrier sees them. *)
Definition loads10 : list (nat * LoadResult) :=
  (λ i : nat, (i, if bool_decide (i = 3) then LoadFailed else LoadOk))
    <$> seq 0 10.

(** A round that gets a payload without frames. *)
Definition round_without_frames : list Event :=
  [ClickStart; GenerateDone (Some no_frames)].

(** A guess is in flight in a round with all frames ready. *)
Definition guess_sent : list Event := round_ready ++ [Submit "eagle banana"].

(** Fifteen seconds pass, then a guess is sent. *)
Definition guess_at_5 : list Event :=
  round_ready ++ replicate 15 (Tick 0) ++ [Submit "eagle banana"].

(** A guess is sent and the round times out before the answer arrives. *)
Definition guess_then_timeout : list Event :=
  round_ready ++ [Submit "eagle banana"] ++ replicate 20 (Tick 0).

(** A round won by a guess, then the next round's payload arrives before
    the interval of the first round fires again. *)
Definition next_round_started : list Event :=
  round_ready ++ [Submit "eagle banana"; EvaluateDone 0 (Some 1%Z);
                  ClickStart; GenerateDone (Some eagle_banana)].

(** All frames but the last have loaded. *)
Definition nine_frames_done : list Event := round_started ++ take 9 frames_done.

(** A round with all frames ready is stopped with the button. *)
Definition stopped_round : list Event := round_ready ++ [ClickStop].

(** The guess sent with 5 seconds left is answered as correct. *)
Definition won_at_5 : list Event := guess_at_5 ++ [EvaluateDone 0 (Some 1%Z)].

(** A round with a payload of three frames only, all of them loaded,
    after 8 seconds. *)
Definition three_frames : Payload :=
  mkPayload ["a.png"; "b.png"; "c.png"] ["animal"; "fruit"] ["eagle"; "banana"].

Definition three_frames_8_seconds : list Event :=
  [ClickStart; GenerateDone (Some three_frames);
   FrameDone 0 LoadOk; FrameDone 1 LoadOk; FrameDone 2 LoadOk]
  ++ replicate 8 (Tick 0).

(** ** Facts on the frame index *)

Global Arguments newImageIndex : simpl never.

Ltac unfold_game :=
  unfold step, handler, startGame, startGame_resume, fetchImage_resume,
    checkAnswer_resume, handleAction, checkAnswer, frameDone, handleImageLoad,
    handleImageError, tick, mainEffect, setInterval, stopGame, clearInterval,
    console_error, updateImageData, updateContext in *.

Ltac game_cases :=
  repeat (case_match || case_bool_decide); simplify_eq/=.


Lemma divisor_eq : divisor = 2%Z.
Proof. reflexivity. Qed.

Lemma newImageIndex_unfold e : newImageIndex e = Z.min (e / 2) 9.
Proof. reflexivity. Qed.

Lemma newImageIndex_mono e e' :
  (e ≤ e')%Z → (newImageIndex e ≤ newImageIndex e')%Z.
Proof.
  intros He. rewrite !newImageIndex_unfold.
  apply Z.min_le_compat_r, Z.div_le_mono; lia.
Qed.

(** C3: with a round of 20 seconds and 10 frames the index is
    [min (floor (elapsed / 2)) 9] for every elapsed time [>= 0]; on
    [0..19] it is [floor (elapsed / 2)]; it never decreases as the elapsed
    time grows; and it is 9 from 19 on, in particular at 19 and at 20. *)
Theorem C3_frame_index :
  (∀ e : Z, (0 ≤ e)%Z → newImageIndex e = Z.min (e / 2) 9) ∧
  (∀ e : Z, (0 ≤ e ≤ 19)%Z → newImageIndex e = (e / 2)%Z) ∧
  (∀ e e' : Z, (0 ≤ e ≤ e')%Z → (newImageIndex e ≤ newImageIndex e')%Z) ∧
  (∀ e : Z, (19 ≤ e)%Z → newImageIndex e = 9%Z) ∧
  newImageIndex 19 = 9%Z ∧ newImageIndex 20 = 9%Z.
Proof.
  split_and!; [| | | | reflexivity | reflexivity].
  - intros e _. apply newImageIndex_unfold.
  - intros e [H0 H19]. rewrite newImageIndex_unfold.
    apply Z.min_l. assert (e / 2 ≤ 19 / 2)%Z by (apply Z.div_le_mono; lia).
    assert (19 / 2 = 9)%Z by reflexivity. lia.
  - intros e e' [_ He]. by apply newImageIndex_mono.
  - intros e He. rewrite newImageIndex_unfold.
    apply Z.min_r. assert (19 / 2 ≤ e / 2)%Z by (apply Z.div_le_mono; lia).
    assert (19 / 2 = 9)%Z by reflexivity. lia.
Qed.

Lemma C3_frame_index_witness :
  newImageIndex 7 = Z.min (7 / 2) 9 ∧ newImageIndex 7 = (7 / 2)%Z ∧
  (newImageIndex 7 ≤ newImageIndex 8)%Z ∧ newImageIndex 23 = 9%Z.
Proof.
  destruct C3_frame_index as (H1 & H2 & H3 & H4 & _).
  split_and!.
  - apply (H1 7%Z). lia.
  - apply (H2 7%Z). lia.
  - apply (H3 7%Z 8%Z). lia.
  - apply (H4 23%Z). lia.
Defined.

(** ** The refs follow the state *)

Lemma handler_refs e g g' :
  handler e g = Some g' →
  isGameRunningRef g' = isGameRunningRef g ∧ timeLeftRef g' = timeLeftRef g.
Proof.
  destruct e; unfold_game; intros; game_cases; done.
Qed.

Lemma commit_synced prev g :
  refs_synced prev →
  isGameRunningRef g = isGameRunningRef prev → timeLeftRef g = timeLeftRef prev →
  refs_synced (commit prev g).
Proof.
  intros [Hr Ht] Hr' Ht'. unfold commit, refs_synced, mainEffect, setInterval.
  unfold isGameRunning in *.
  game_cases; split; congruence.
Qed.

Lemma reachable_synced g : reachable g → refs_synced g.
Proof.
  induction 1 as [|g e g' _ IH Hstep]; [done|].
  unfold step in Hstep. destruct (handler e g) as [h|] eqn:Hh; simplify_eq/=.
  destruct (handler_refs _ _ _ Hh). by apply commit_synced.
Qed.

Lemma commit_same_deps prev g :
  isGameRunning g = isGameRunning prev → timeLeft g = timeLeft prev →
  ready g = ready prev → commit prev g = g.
Proof.
  intros H1 H2 H3. unfold commit.
  rewrite (bool_decide_true (isGameRunning prev = isGameRunning g)) by done.
  rewrite (bool_decide_true (timeLeft prev = timeLeft g)) by done.
  rewrite bool_decide_true; done.
Qed.

Lemma run_app es es' g : run (es ++ es') g = run es g ≫= run es'.
Proof.
  revert g. induction es as [|e es IH]; intros g; simpl; [done|].
  destruct (step e g); simpl; auto.
Qed.

Lemma run_reachable es g g' : reachable g → run es g = Some g' → reachable g'.
Proof.
  revert g. induction es as [|e es IH]; intros g Hg Hrun; simpl in *.
  - by simplify_eq.
  - destruct (step e g) as [g1|] eqn:Hstep; simplify_eq/=.
    eapply IH; [|done]. by eapply reachable_step.
Qed.

(** The effects touch the refs and the intervals only. *)
Lemma commit_fields prev g :
  gameState (commit prev g) = gameState g ∧
  timeLeft (commit prev g) = timeLeft g ∧
  imageData (commit prev g) = imageData g ∧
  context (commit prev g) = context g ∧
  evaluating (commit prev g) = evaluating g.
Proof.
  unfold commit, mainEffect, setInterval. game_cases; done.
Qed.

(** The time left stays within [1..TIME_PER_ROUND]: the firing that would
    bring it to 0 puts it back to the full time. *)
Lemma reachable_timeLeft_range g :
  reachable g → (1 ≤ timeLeft g ≤ TIME_PER_ROUND)%Z.
Proof.
  induction 1 as [|g e g' _ IH Hstep]; [done|].
  unfold step in Hstep. destruct (handler e g) as [h|] eqn:Hh; simplify_eq/=.
  destruct (commit_fields g h) as (_ & -> & _).
  unfold TIME_PER_ROUND in *.
  destruct e; unfold_game; game_cases; unfold TIME_PER_ROUND; lia.
Qed.

(** A round start followed by its payload registers the frames of the
    payload with nothing loaded. *)
Lemma round_start_registers g data :
  startClickable g = true →
  ∃ g1 g2, step ClickStart g = Some g1 ∧
    step (GenerateDone (Some data)) g1 = Some g2 ∧
    imageData g2 = register (data_images data) ∧ gameState g2 = running.
Proof.
  intros Hclick. unfold step at 1. unfold handler. rewrite Hclick. simpl.
  eexists _, _. split; [done|].
  set (g1 := commit g (startGame g)).
  assert (Hgen : generating g1 = S (generating g)).
  { subst g1. unfold commit, mainEffect, setInterval. game_cases; done. }
  assert (Hdata : imageData g1 = emptyImageData).
  { subst g1. by destruct (commit_fields g (startGame g)) as (_ & _ & -> & _). }
  unfold step, handler. rewrite Hgen. cbn [fmap option_fmap option_map].
  split; [done|]. fold g1.
  set (h := (startGame_resume (Some data) (setGenerating (generating g) g1)).1).
  destruct (commit_fields g1 h) as (-> & _ & -> & _).
  subst h. simpl. by rewrite Hdata.
Qed.

(** ** One firing of the timer *)

Lemma step_tick_stopped g id :
  isGameRunningRef g = false → id ∈ intervals g →
  step (Tick id) g = Some (clearInterval id g).
Proof.
  intros Href Hid. unfold step, handler.
  rewrite bool_decide_true by done. simpl.
  unfold tick. rewrite Href. simpl.
  by rewrite commit_same_deps.
Qed.

Ltac step_eval :=
  unfold step, handler, commit, isGameRunning, ready; simpl;
  unfold_game; unfold isGameRunning, ready; simpl;
  repeat (case_bool_decide; simplify_eq/=; try lia;
          try (exfalso; intuition congruence));
  try done.

Lemma step_tick_running g id :
  refs_synced g → gameState g = running → id ∈ intervals g →
  (1 < timeLeft g)%Z →
  step (Tick id) g =
    Some (setTimeLeftRef (timeLeft g - 1)
            (setCurrentImageIndex (newImageIndex (TIME_PER_ROUND - timeLeft g))
               (setTimeLeft (timeLeft g - 1) g))).
Proof.
  intros [Href Htref] Hrun Hid Ht. unfold isGameRunning in Href.
  unfold step, handler. rewrite (bool_decide_true (id ∈ intervals g)) by done.
  clear Hid. destruct g; simplify_eq/=. step_eval.
Qed.

Lemma step_tick_timeout g id :
  refs_synced g → gameState g = running → id ∈ intervals g →
  (timeLeft g ≤ 1)%Z →
  step (Tick id) g =
    Some (setTimeLeftRef TIME_PER_ROUND
            (setIsGameRunningRef false
               (setCurrentImageIndex (newImageIndex (TIME_PER_ROUND - timeLeft g))
                  (setTimeLeft TIME_PER_ROUND
                     (stopGame (clearInterval id g)))))).
Proof.
  intros [Href Htref] Hrun Hid Ht. unfold isGameRunning in Href.
  unfold step, handler. rewrite (bool_decide_true (id ∈ intervals g)) by done.
  clear Hid. destruct g; simplify_eq/=. step_eval.
Qed.


(** ** Evaluation of a guess *)

Lemma step_evaluate_positive g k req :
  refs_synced g → gameState g = running → evaluating g !! k = Some req →
  step (EvaluateDone k (Some 1%Z)) g =
    Some (setIsGameRunningRef false
            (stopGame (updateContext (addToScore (timeLeft g * 10))
                         (setEvaluating (delete k (evaluating g)) g)))).
Proof.
  intros [Href Htref] Hrun Hk. unfold isGameRunning in Href.
  unfold step, handler. rewrite Hk. clear Hk.
  destruct g; simplify_eq/=. step_eval.
Qed.

Lemma step_evaluate_negative g k req sc :
  sc ≠ 1%Z → evaluating g !! k = Some req →
  step (EvaluateDone k (Some sc)) g =
    Some (setEvaluating (delete k (evaluating g)) g).
Proof.
  intros Hsc Hk. unfold step, handler. rewrite Hk. simpl.
  unfold checkAnswer_resume. rewrite bool_decide_false by done. simpl.
  by rewrite commit_same_deps.
Qed.

(** The resolution of [checkAnswer] looks at the answer only: whatever
    the game state, a positive answer adds [timeLeftRef * 10] and stops. *)
Lemma step_evaluate_positive_any g k req :
  evaluating g !! k = Some req →
  ∃ g', step (EvaluateDone k (Some 1%Z)) g = Some g' ∧
    score (context g') = (score (context g) + timeLeftRef g * 10)%Z ∧
    gameState g' = ended.
Proof.
  intros Hk. unfold step, handler. rewrite Hk. simpl.
  eexists. split; [done|].
  match goal with |- context [commit g ?h] =>
    destruct (commit_fields g h) as (-> & _ & _ & -> & _) end.
  done.
Qed.

(** C4: when the answer to a guess arrives while the round is running, a
    positive answer ([data.score == 1]) adds the time left times 10 to the
    score and ends the round, by a guess and not by the timer; any other
    answer changes nothing (only the request is no longer in flight). *)
Theorem C4_guess_evaluated g k req sc :
  reachable g → gameState g = running → evaluating g !! k = Some req →
  ∃ g', step (EvaluateDone k (Some sc)) g = Some g' ∧
    (sc = 1%Z →
       score (context g') = (score (context g) + timeLeft g * 10)%Z ∧
       gameState g' = ended ∧
       timedOut (EvaluateDone k (Some sc)) = false ∧
       timeLeft g' = timeLeft g) ∧
    (sc ≠ 1%Z → g' = setEvaluating (delete k (evaluating g)) g).
Proof.
  intros Hg Hrun Hk. apply reachable_synced in Hg.
  destruct (decide (sc = 1%Z)) as [->|Hsc].
  - eexists. split; [by eapply step_evaluate_positive|].
    split; [done|]. intros []; done.
  - eexists. split; [by eapply step_evaluate_negative|].
    split; [done|]. done.
Qed.

(** C9 as the code has it: a submitted guess goes to the evaluator whenever
    the game state is ['running'], whether or not all frames are loaded;
    in every other state it makes no call and changes nothing. *)
Theorem C9_guess_gate g text :
  (gameState g ≠ running → step (Submit text) g = Some g) ∧
  (gameState g = running →
     step (Submit text) g =
       Some (setEvaluating
               (evaluating g ++
                  [mkEvalRequest (canonicalAnswer (correctWords (context g))) text])
               g)).
Proof.
  unfold step, handler, handleAction, isGameRunning. simpl. split; intros H.
  - rewrite bool_decide_false by done. by rewrite commit_same_deps.
  - rewrite bool_decide_true by done. by rewrite commit_same_deps.
Qed.

(** ** Failing requests *)

(** C8 as the code has it: when the evaluate call fails while the round is
    running, the error is caught and logged, [checkAnswer]'s promise is
    fulfilled, and everything but the console stays as it was: the round
    is still running, with the same score and the same typed guess. *)
Theorem C8_evaluate_failure g k req :
  gameState g = running → evaluating g !! k = Some req →
  ∃ g', step (EvaluateDone k None) g = Some g' ∧
    g' = console_error "Error checking answer:"
           (setEvaluating (delete k (evaluating g)) g) ∧
    snd (checkAnswer_resume None (setEvaluating (delete k (evaluating g)) g))
      = fulfilled ∧
    gameState g' = running ∧ context g' = context g ∧ guess g' = guess g.
Proof.
  intros Hrun Hk. eexists. split.
  - unfold step, handler. rewrite Hk. simpl. by rewrite commit_same_deps.
  - done.
Qed.

(** ** A round that runs out of time *)

Lemma ticks_count_down ids : ∀ g,
  refs_synced g → gameState g = running →
  Forall (λ id, id ∈ intervals g) ids →
  (Z.of_nat (length ids) < timeLeft g)%Z →
  ∃ g', run (Tick <$> ids) g = Some g' ∧
    refs_synced g' ∧ gameState g' = running ∧
    timeLeft g' = (timeLeft g - Z.of_nat (length ids))%Z ∧
    intervals g' = intervals g ∧ context g' = context g ∧
    imageData g' = imageData g.
Proof.
  induction ids as [|id ids IH]; intros g Hsync Hrun Hids Hlen; simpl in *.
  - exists g. split_and!; try done. lia.
  - apply Forall_cons in Hids as [Hid Hids].
    rewrite step_tick_running by first [done | lia]. simpl.
    set (g1 := setTimeLeftRef _ _).
    destruct (IH g1) as (g' & Hrun' & Hs' & Hr' & Ht' & Hi' & Hc' & Hd').
    + split; [|done]. subst g1. simpl. destruct Hsync as [-> _].
      unfold isGameRunning. done.
    + done.
    + done.
    + subst g1. simpl. lia.
    + exists g'. split_and!; try done. rewrite Ht'. subst g1. simpl. lia.
Qed.

Lemma ready_images_nonempty d : allImagesReady d = true → images d ≠ [].
Proof.
  unfold allImagesReady. intros H Hnil. rewrite Hnil in H. done.
Qed.

(** C5: a firing of the timer that brings the time left to 0 ends the
    round, as a timeout.  From a running round with all frames ready and
    the full time left, 19 firings leave the round running with one second
    left and the 20th ends it: the score is the one the round started
    with, the answer pair is shown, and a later firing changes neither the
    time left nor the state. *)
Theorem C5_timeout :
  (∀ g id, reachable g → gameState g = running → id ∈ intervals g →
     (timeLeft g - 1 = 0)%Z →
     ∃ g', step (Tick id) g = Some g' ∧ gameState g' = ended ∧
           timedOut (Tick id) = true) ∧
  (∀ g ids id w0 w1,
     reachable g → gameState g = running → ready g = true →
     timeLeft g = TIME_PER_ROUND → length ids = 19 →
     Forall (λ i, i ∈ intervals g) (ids ++ [id]) →
     correctWords (context g) = [w0; w1] →
     ∃ g19 g20,
       run (Tick <$> ids) g = Some g19 ∧
       gameState g19 = running ∧ timeLeft g19 = 1%Z ∧
       step (Tick id) g19 = Some g20 ∧
       run (Tick <$> (ids ++ [id])) g = Some g20 ∧
       gameState g20 = ended ∧ timedOut (Tick id) = true ∧
       score (context g20) = score (context g) ∧
       infoPanel g20 = ShowCorrectWords w0 w1 ∧
       (id ∉ intervals g20) ∧
       (∀ id' g', step (Tick id') g20 = Some g' →
          timeLeft g' = timeLeft g20 ∧ gameState g' = ended ∧
          currentImageIndex g' = currentImageIndex g20 ∧
          context g' = context g20)).
Proof.
  split.
  - intros g id Hg Hrun Hid Ht. apply reachable_synced in Hg.
    eexists. split; [apply step_tick_timeout; first [done | lia]|]. done.
  - intros g ids id w0 w1 Hg Hrun Hready Ht Hlen Hids Hws.
    apply reachable_synced in Hg. apply Forall_app in Hids as [Hids Hid].
    rewrite Forall_singleton in Hid.
    destruct (ticks_count_down ids g) as (g19 & Hrun19 & Hs & Hr & Ht19 & Hi & Hc & Hd);
      try done.
    { rewrite Hlen, Ht. unfold TIME_PER_ROUND. lia. }
    rewrite Hlen, Ht in Ht19.
    assert (Ht1 : timeLeft g19 = 1%Z) by (by rewrite Ht19).
    clear Ht19.
    assert (Hstep : step (Tick id) g19 =
      Some (setTimeLeftRef TIME_PER_ROUND
              (setIsGameRunningRef false
                 (setCurrentImageIndex (newImageIndex (TIME_PER_ROUND - timeLeft g19))
                    (setTimeLeft TIME_PER_ROUND
                       (stopGame (clearInterval id g19))))))).
    { apply step_tick_timeout; try done; [by rewrite Hi | lia]. }
    eexists g19, _. split_and!; try done.
    + rewrite fmap_app, run_app, Hrun19. simpl. by rewrite Hstep.
    + simpl. by rewrite Hc.
    + unfold infoPanel, isGameRunning, isLoading, isGameEnded. simpl.
      rewrite Hd, Hc, Hws. apply ready_images_nonempty in Hready.
      rewrite bool_decide_false; [done|].
      destruct (images (imageData g)); done.
    + simpl. apply not_elem_of_difference. right. by apply elem_of_singleton.
    + intros id' g' Hstep'. unfold step, handler in Hstep'.
      case_bool_decide as Hin; simplify_eq/=.
      unfold tick. simpl. rewrite commit_same_deps; done.
Qed.

(** ** The preload barrier *)

Lemma frameDone_imageData g m :
  imageData (frameDone g m) = markLoaded (fst m) (imageData g).
Proof. destruct m as [i []]; done. Qed.

Lemma foldl_frameDone_images ms : ∀ g,
  images (imageData (foldl frameDone g ms)) = images (imageData g).
Proof.
  induction ms as [|m ms IH]; intros g; simpl; [done|].
  by rewrite IH, frameDone_imageData.
Qed.

Lemma foldl_frameDone_loaded ms : ∀ g i,
  loaded (imageData (foldl frameDone g ms)) !! i =
    if decide (i ∈ ms.*1) then Some true else loaded (imageData g) !! i.
Proof.
  induction ms as [|m ms IH]; intros g i.
  - rewrite decide_False; [done|]. apply not_elem_of_nil.
  - rewrite fmap_cons. cbn [foldl]. rewrite IH, frameDone_imageData. simpl.
    destruct (decide (i ∈ ms.*1)) as [Hin|Hnin].
    + rewrite decide_True; [done|]. apply elem_of_cons. by right.
    + destruct (decide (i = m.1)) as [->|Hne].
      * rewrite lookup_insert_eq, decide_True; [done|].
        apply elem_of_cons. by left.
      * rewrite lookup_insert_ne by done.
        rewrite decide_False; [done|].
        rewrite elem_of_cons. intros [?|?]; done.
Qed.

Lemma every_loaded_true (o : gmap nat bool) :
  every_loaded o = true ↔ ∀ k v, o !! k = Some v → v = true.
Proof.
  unfold every_loaded. rewrite <- Is_true_true, forallb_True, Forall_forall.
  split.
  - intros H k v Hk. apply Is_true_true.
    apply (H (k, v)). by apply elem_of_map_to_list.
  - intros H [k v] Hkv. apply elem_of_map_to_list in Hkv.
    apply Is_true_true. simpl. by eapply H.
Qed.

Lemma barrier_ready_iff g imgs ms :
  imageData g = register imgs → imgs ≠ [] →
  Forall (λ m, fst m < length imgs) ms →
  ready (foldl frameDone g ms) = true ↔ ∀ i, i < length imgs → i ∈ ms.*1.
Proof.
  intros Hreg Hne Hms. unfold ready, allImagesReady.
  rewrite foldl_frameDone_images, Hreg. simpl.
  rewrite bool_decide_false by (by destruct imgs).
  set (o := loaded (imageData (foldl frameDone g ms))).
  assert (Ho : ∀ i, o !! i = if decide (i ∈ ms.*1) then Some true else None).
  { intros i. subst o. rewrite foldl_frameDone_loaded, Hreg. simpl.
    by rewrite lookup_empty. }
  assert (Hall : every_loaded o = true).
  { apply every_loaded_true. intros k v. rewrite Ho.
    case_decide; congruence. }
  assert (Hdom : ∀ i, i ∈ dom o ↔ i ∈ ms.*1).
  { intros i. rewrite elem_of_dom, Ho.
    case_decide; split; try done; try (by eauto); by intros [? ?]. }
  assert (Hsub : dom o ⊆ set_seq (C := gset nat) 0 (length imgs)).
  { intros i Hi. apply Hdom in Hi. apply elem_of_set_seq. split; [lia|].
    apply list_elem_of_fmap in Hi as (m & -> & Hm). simpl.
    rewrite Forall_forall in Hms. by apply Hms. }
  rewrite Hall, andb_true_r, bool_decide_eq_true, <- size_dom.
  split.
  - intros Hsize i Hi. apply Hdom.
    assert (Heq : dom o = set_seq (C := gset nat) 0 (length imgs)).
    { apply set_subseteq_size_eq; [done|]. rewrite size_set_seq. lia. }
    rewrite Heq. apply elem_of_set_seq. lia.
  - intros Hcov.
    assert (Heq : dom o = set_seq (C := gset nat) 0 (length imgs)).
    { apply set_eq. intros i. split; [by apply Hsub|].
      intros Hi. apply elem_of_set_seq in Hi. apply Hdom, Hcov. lia. }
    by rewrite Heq, size_set_seq.
Qed.

(** C6 as the code has it: for a round with at least one frame, after the
    frames are stored and any sequence of load results for rendered
    indices, [allImagesReady] holds exactly when every index has had a
    load result; a failed load marks its index as a successful one does
    (it differs by a console line only), and a second result for an index
    leaves the image data as the first one did. *)
Theorem C6_preload_barrier :
  (∀ g imgs ms,
     imageData g = register imgs → imgs ≠ [] →
     Forall (λ m, fst m < length imgs) ms →
     ready (foldl frameDone g ms) = true ↔
       ∀ i, i < length imgs → i ∈ ms.*1) ∧
  (∀ g i, setConsole (console g) (frameDone g (i, LoadFailed))
            = frameDone g (i, LoadOk)) ∧
  (∀ g i r r', imageData (frameDone (frameDone g (i, r)) (i, r'))
                 = imageData (frameDone g (i, r))).
Proof.
  split_and!.
  - apply barrier_ready_iff.
  - intros g i. done.
  - intros g i r r'. rewrite !frameDone_imageData. unfold markLoaded. simpl.
    by rewrite insert_insert_eq.
Qed.

(** ** When an interval is started *)

Lemma handler_intervals e g g' :
  handler e g = Some g' →
  nextInterval g' = nextInterval g ∧ intervals g' ⊆ intervals g.
Proof.
  destruct e; unfold_game; intros; game_cases; split; try done;
    apply subseteq_difference_l; done.
Qed.

Lemma commit_intervals prev g :
  (nextInterval (commit prev g) = nextInterval g ∧
   intervals (commit prev g) = intervals g) ∨
  (isGameRunning g = true ∧ ready g = true ∧
   nextInterval (commit prev g) = S (nextInterval g) ∧
   intervals (commit prev g) = {[nextInterval g]} ∪ intervals g).
Proof.
  unfold commit, mainEffect, setInterval, isGameRunning, ready.
  game_cases; try (by left);
    right; destruct (allImagesReady _); done.
Qed.

(** The guard of the main effect: a step starts an interval only into a
    state that is running with all frames ready. *)
Lemma interval_started_only_when_ready e g g' :
  step e g = Some g' → nextInterval g' ≠ nextInterval g →
  isGameRunning g' = true ∧ ready g' = true.
Proof.
  unfold step. intros Hstep Hnext.
  destruct (handler e g) as [h|] eqn:Hh; simplify_eq/=.
  destruct (handler_intervals _ _ _ Hh) as [Hn _].
  revert Hnext. unfold commit, mainEffect, setInterval, isGameRunning, ready.
  game_cases; try congruence; intros _;
    destruct (allImagesReady _); done.
Qed.

Lemma reachable_intervals_bound g :
  reachable g → ∀ id, id ∈ intervals g → id < nextInterval g.
Proof.
  induction 1 as [|g e g' _ IH Hstep]; intros id Hid; [set_solver|].
  unfold step in Hstep. destruct (handler e g) as [h|] eqn:Hh; simplify_eq/=.
  destruct (handler_intervals _ _ _ Hh) as [Hn Hsub].
  destruct (commit_intervals g h) as [[Hn' Hi']|(_ & _ & Hn' & Hi')].
  - rewrite Hn', Hn. apply IH, Hsub. by rewrite <- Hi'.
  - rewrite Hn', Hn. rewrite Hi' in Hid.
    apply elem_of_union in Hid as [Hid|Hid].
    + apply elem_of_singleton in Hid. lia.
    + apply Hsub, IH in Hid. lia.
Qed.

(** Before the first interval is started the timer cannot fire. *)
Lemma no_tick_before_first_interval g id :
  reachable g → nextInterval g = 0 → step (Tick id) g = None.
Proof.
  intros Hg Hn. unfold step, handler.
  rewrite bool_decide_false; [done|].
  intros Hid. apply (reachable_intervals_bound g Hg) in Hid. lia.
Qed.

Lemma after_run es g : run es init = Some g → after es = g.
Proof. unfold after. by intros ->. Qed.

Lemma after_reachable es : is_Some (run es init) → reachable (after es).
Proof.
  intros [g Hg]. rewrite (after_run _ _ Hg).
  eapply run_reachable; [apply reachable_init | done].
Qed.

(** ** The claims on sample rounds *)

(** C1: the timer can decrement before the frames of a round are ready.
    The interval of a round that ended by a guess stays live until it
    fires again; when the next round's payload arrives first, that firing
    finds the game running and takes a second off the new round while
    none of its frames has loaded. *)
Theorem C1_stale_interval_ticks_before_ready :
  ∃ g g', run next_round_started init = Some g ∧
    gameState g = running ∧ ready g = false ∧ timeLeft g = 20%Z ∧
    step (Tick 0) g = Some g' ∧
    gameState g' = running ∧ ready g' = false ∧ timeLeft g' = 19%Z.
Proof.
  eexists _, _. split; [vm_compute; reflexivity|].
  split_and!; vm_compute; reflexivity.
Qed.

(** C2: an answer that arrives after the round has ended is not discarded.
    The guess is sent while the round runs, the round times out (the score
    is still 0), and the positive answer that arrives then adds
    [timeLeftRef.current * 10], which is 200 after the reset of the time
    left. *)
Theorem C2_late_answer_scores :
  ∃ g g', run guess_then_timeout init = Some g ∧
    gameState g = ended ∧ score (context g) = 0%Z ∧
    step (EvaluateDone 0 (Some 1%Z)) g = Some g' ∧
    gameState g' = ended ∧ score (context g') = 200%Z.
Proof.
  eexists _, _. split; [vm_compute; reflexivity|].
  split_and!; vm_compute; reflexivity.
Qed.

(** C6 fails for a round without frames: every one of its 0 indices has
    been marked, and the barrier does not report ready. *)
Lemma C6_no_frames_never_ready :
  imageData (after round_without_frames) = register [] ∧
  ¬ (ready (foldl frameDone (after round_without_frames) []) = true ↔
     ∀ i, i < length (@nil string) → i ∈ (@nil (nat * LoadResult)).*1).
Proof.
  split; [vm_compute; reflexivity|].
  intros [_ H].
  assert (Hr : ready (foldl frameDone (after round_without_frames) []) = true).
  { apply H. intros i Hi. inversion Hi. }
  vm_compute in Hr. discriminate.
Qed.

(** C7 fails: after a generate call that failed the game is still
    loading, and after a response with an empty frame sequence it is
    running with nothing logged; in neither case is it back in the initial
    state. *)
Lemma C7_failed_generate_not_initial :
  gameState (after [ClickStart]) = loading ∧
  (∃ g', step (GenerateDone None) (after [ClickStart]) = Some g' ∧
         gameState g' = loading ∧ gameState g' ≠ initial) ∧
  (∃ g', step (GenerateDone (Some no_frames)) (after [ClickStart]) = Some g' ∧
         gameState g' = running ∧ gameState g' ≠ initial ∧ console g' = []).
Proof.
  split; [vm_compute; reflexivity|]. split.
  - eexists. split; [vm_compute; reflexivity|].
    split; [vm_compute; reflexivity|]. vm_compute. discriminate.
  - eexists. split; [vm_compute; reflexivity|].
    split; [vm_compute; reflexivity|].
    split; [vm_compute; discriminate|]. vm_compute. reflexivity.
Qed.

(** C8 fails: after a failed evaluate call the promise of [checkAnswer] is
    fulfilled, not rejected, and but for the console the state is the one
    after a negative answer: nothing tells the caller of the failure. *)
Lemma C8_failed_evaluate_not_surfaced :
  gameState (after guess_sent) = running ∧
  snd (checkAnswer_resume None
         (setEvaluating (delete 0 (evaluating (after guess_sent)))
            (after guess_sent))) ≠ rejected ∧
  ∃ g1 g2,
    step (EvaluateDone 0 None) (after guess_sent) = Some g1 ∧
    step (EvaluateDone 0 (Some 0%Z)) (after guess_sent) = Some g2 ∧
    g1 ≠ g2 ∧ setConsole (console g2) g1 = g2.
Proof.
  split; [vm_compute; reflexivity|]. split; [vm_compute; discriminate|].
  eexists _, _. split; [vm_compute; reflexivity|].
  split; [vm_compute; reflexivity|].
  split; [|vm_compute; reflexivity].
  intros H. apply (f_equal console) in H. vm_compute in H. discriminate.
Qed.

(** C9 fails in the running state before the frames are ready: the guess
    is sent to the evaluator. *)
Lemma C9_guess_accepted_before_frames_ready :
  reachable (after round_started) ∧
  gameState (after round_started) = running ∧
  ready (after round_started) = false ∧
  ∃ g', step (Submit "eagle banana") (after round_started) = Some g' ∧
        evaluating g' = [mkEvalRequest "eagle banana" "eagle banana"] ∧
        g' ≠ after round_started.
Proof.
  split; [apply after_reachable; vm_compute; eauto|].
  split; [vm_compute; reflexivity|]. split; [vm_compute; reflexivity|].
  eexists. split; [vm_compute; reflexivity|]. split; [vm_compute; reflexivity|].
  intros H. apply (f_equal evaluating) in H. vm_compute in H. discriminate.
Qed.

(** ** The general statements at sample rounds *)

Lemma C4_guess_evaluated_witness :
  ∃ g', step (EvaluateDone 0 (Some 1%Z)) (after guess_at_5) = Some g' ∧
        score (context g') = 50%Z ∧ gameState g' = ended.
Proof.
  destruct (C4_guess_evaluated (after guess_at_5) 0
              (mkEvalRequest "eagle banana" "eagle banana") 1%Z)
    as (g' & Hstep & Hpos & _).
  - apply after_reachable. vm_compute. eauto.
  - vm_compute. reflexivity.
  - vm_compute. reflexivity.
  - exists g'. destruct (Hpos eq_refl) as (Hs & He & _).
    split; [exact Hstep|]. split; [|exact He].
    rewrite Hs. vm_compute. reflexivity.
Defined.

Lemma C5_timeout_witness :
  (∃ g', step (Tick 0) (after (round_ready ++ replicate 19 (Tick 0))) = Some g' ∧
         gameState g' = ended) ∧
  (∃ g20, run (Tick <$> (replicate 19 0 ++ [0])) (after round_ready) = Some g20 ∧
          gameState g20 = ended ∧
          score (context g20) = score (context (after round_ready)) ∧
          infoPanel g20 = ShowCorrectWords "eagle" "banana").
Proof.
  destruct C5_timeout as [Hone Hround]. split.
  - destruct (Hone (after (round_ready ++ replicate 19 (Tick 0))) 0)
      as (g' & Hstep & Hend & _).
    + apply after_reachable. vm_compute. eauto.
    + vm_compute. reflexivity.
    + apply (bool_decide_unpack _). vm_compute. exact I.
    + vm_compute. reflexivity.
    + exists g'. split; [exact Hstep | exact Hend].
  - destruct (Hround (after round_ready) (replicate 19 0) 0 "eagle" "banana")
      as (g19 & g20 & _ & _ & _ & _ & Hrun & Hend & _ & Hscore & Hinfo & _).
    + apply after_reachable. vm_compute. eauto.
    + vm_compute. reflexivity.
    + vm_compute. reflexivity.
    + vm_compute. reflexivity.
    + reflexivity.
    + apply (bool_decide_unpack _). vm_compute. exact I.
    + vm_compute. reflexivity.
    + exists g20. split; [exact Hrun|]. split; [exact Hend|].
      split; [exact Hscore | exact Hinfo].
Defined.

Lemma C6_preload_barrier_witness :
  ready (foldl frameDone (after round_started) loads10) = true.
Proof.
  destruct C6_preload_barrier as [Hiff _].
  apply (Hiff (after round_started) frames10 loads10).
  - vm_compute. reflexivity.
  - discriminate.
  - apply (bool_decide_unpack _). vm_compute. exact I.
  - intros i Hi. change (loads10.*1) with (seq 0 10).
    apply elem_of_seq. change (length frames10) with 10 in Hi. lia.
Defined.

Lemma C8_evaluate_failure_witness :
  ∃ g', step (EvaluateDone 0 None) (after guess_sent) = Some g' ∧
        gameState g' = running ∧ guess g' = guess (after guess_sent).
Proof.
  destruct (C8_evaluate_failure (after guess_sent) 0
              (mkEvalRequest "eagle banana" "eagle banana"))
    as (g' & Hstep & _ & _ & Hrun & _ & Hguess).
  - vm_compute. reflexivity.
  - vm_compute. reflexivity.
  - exists g'. split; [exact Hstep|]. split; [exact Hrun | exact Hguess].
Defined.

Lemma C9_guess_gate_witness :
  step (Submit "eagle banana") init = Some init ∧
  step (Submit "eagle banana") (after round_ready) =
    Some (setEvaluating
            (evaluating (after round_ready) ++
               [mkEvalRequest
                  (canonicalAnswer (correctWords (context (after round_ready))))
                  "eagle banana"])
            (after round_ready)).
Proof.
  split.
  - apply (C9_guess_gate init "eagle banana"). discriminate.
  - apply (C9_guess_gate (after round_ready) "eagle banana").
    vm_compute. reflexivity.
Defined.


(** * Further properties of the component *)

#[global] Arguments allImagesReady : simpl never.
#[global] Arguments startClickable : simpl never.

(** ** Invariants of the reachable states *)

Lemma commit_fields_more prev g :
  currentImageIndex (commit prev g) = currentImageIndex g ∧
  guess (commit prev g) = guess g ∧
  generating (commit prev g) = generating g ∧
  console (commit prev g) = console g.
Proof.
  unfold commit, mainEffect, setInterval. game_cases; done.
Qed.

Lemma newImageIndex_range e :
  (0 ≤ e)%Z → (0 ≤ newImageIndex e ≤ 9)%Z.
Proof.
  intros He. rewrite newImageIndex_unfold.
  assert (0 ≤ e / 2)%Z by (apply Z.div_pos; lia). lia.
Qed.

Lemma reachable_index_range g :
  reachable g → (0 ≤ currentImageIndex g ≤ NUM_IMAGES - 1)%Z.
Proof.
  induction 1 as [|g e g' Hg IH Hstep]; [done|].
  pose proof (reachable_timeLeft_range g Hg) as Ht.
  destruct (reachable_synced g Hg) as [_ Htref].
  unfold step in Hstep. destruct (handler e g) as [h|] eqn:Hh; simplify_eq/=.
  destruct (commit_fields_more g h) as (-> & _).
  change (NUM_IMAGES - 1)%Z with 9%Z in *. unfold TIME_PER_ROUND in Ht.
  destruct e; unfold_game; game_cases; try lia;
    apply newImageIndex_range; unfold TIME_PER_ROUND; lia.
Qed.

(** X1: between events the time left is within 1..20: the display never
    shows 0 or a negative time. *)
Theorem X1_time_left_range g :
  reachable g → (1 ≤ timeLeft g ≤ TIME_PER_ROUND)%Z.
Proof. apply reachable_timeLeft_range. Qed.

(** X3: the refs hold the rendered values between events:
    [isGameRunningRef.current] is [isGameRunning] and [timeLeftRef.current]
    is [timeLeft]. *)
Theorem X3_refs_follow_state g :
  reachable g →
  isGameRunningRef g = isGameRunning g ∧ timeLeftRef g = timeLeft g.
Proof. apply reachable_synced. Qed.

(** ** The countdown of a round *)

(** X4: while a round runs, [n] firings of live intervals, with [n] less
    than the time left, take [n] seconds off, and the frame index they
    leave is the one of the elapsed time a second before: the index is
    computed from [timeLeftRef], which still holds the time left of the
    render before the firing. *)
Theorem X4_countdown_and_frame_lag g ids :
  reachable g → gameState g = running →
  Forall (λ id, id ∈ intervals g) ids →
  1 ≤ length ids → (Z.of_nat (length ids) < timeLeft g)%Z →
  ∃ g', run (Tick <$> ids) g = Some g' ∧
    gameState g' = running ∧
    timeLeft g' = (timeLeft g - Z.of_nat (length ids))%Z ∧
    currentImageIndex g' =
      newImageIndex (TIME_PER_ROUND - timeLeft g' - 1) ∧
    context g' = context g.
Proof.
  intros Hg Hrun Hids Hlen1 Hlen. apply reachable_synced in Hg.
  destruct (decide (ids = [])) as [->|Hne]; [simpl in Hlen1; lia|].
  destruct (exists_last Hne) as (ids' & id & ->).
  rewrite length_app in Hlen, Hlen1 |- *. simpl in *.
  apply Forall_app in Hids as [Hids' Hid]. rewrite Forall_singleton in Hid.
  destruct (ticks_count_down ids' g) as (g1 & Hrun1 & Hs1 & Hr1 & Ht1 & Hi1 & Hc1 & _);
    try done; [lia|].
  eexists. split.
  - rewrite fmap_app, run_app, Hrun1. simpl.
    rewrite step_tick_running; try done; [by rewrite Hi1 | lia].
  - simpl. split_and!; try done.
    + lia.
    + f_equal. lia.
Qed.

(** ** The session store *)

Lemma score_step e g g' :
  reachable g → step e g = Some g' →
  score (context g') = score (context g) ∨
  (∃ k, e = EvaluateDone k (Some 1%Z) ∧
     score (context g') = (score (context g) + timeLeft g * 10)%Z ∧
     (10 ≤ timeLeft g * 10 ≤ 200)%Z).
Proof.
  intros Hg Hstep. pose proof (reachable_timeLeft_range g Hg) as Ht.
  destruct (reachable_synced g Hg) as [_ Htref].
  unfold step in Hstep. destruct (handler e g) as [h|] eqn:Hh; simplify_eq/=.
  destruct (commit_fields g h) as (_ & _ & _ & -> & _).
  unfold TIME_PER_ROUND in Ht.
  destruct e; unfold_game; game_cases; try (by left).
  right. eexists. split; [done|]. simpl. rewrite Htref. split; [done|lia].
Qed.

(** X5: a step never lowers the score.  It changes the score only when a
    positive answer arrives, and then by the time left times 10, between
    10 and 200. *)
Theorem X5_score_steps e g g' :
  reachable g → step e g = Some g' →
  score (context g') = score (context g) ∨
  (∃ k, e = EvaluateDone k (Some 1%Z) ∧
     score (context g') = (score (context g) + timeLeft g * 10)%Z ∧
     (10 ≤ timeLeft g * 10 ≤ 200)%Z).
Proof. apply score_step. Qed.

(** X7: between events the score is a multiple of 10 and not negative. *)
Theorem X7_score_invariant g :
  reachable g → (0 ≤ score (context g))%Z ∧ (10 | score (context g))%Z.
Proof.
  induction 1 as [|g e g' Hg [IH0 IH10] Hstep].
  - split; [done|]. apply Z.divide_0_r.
  - destruct (score_step e g g' Hg Hstep) as [->|(k & _ & -> & Hr)];
      [done|].
    split; [lia|]. apply Z.divide_add_r; [done|]. apply Z.divide_factor_r.
Qed.

(** X6: the round counter goes up by one on each start of a round and is
    changed by nothing else: a failed generate call does not take the
    increment back. *)
Theorem X6_round_counter_steps e g g' :
  step e g = Some g' →
  numRounds (context g') =
    (numRounds (context g) + match e with ClickStart => 1 | _ => 0 end)%Z.
Proof.
  intros Hstep.
  unfold step in Hstep. destruct (handler e g) as [h|] eqn:Hh; simplify_eq/=.
  destruct (commit_fields g h) as (_ & _ & _ & -> & _).
  destruct e; unfold_game; game_cases; lia.
Qed.

Lemma numRounds_step e g g' :
  step e g = Some g' →
  numRounds (context g') =
    (numRounds (context g) + match e with ClickStart => 1 | _ => 0 end)%Z.
Proof.
  intros Hstep.
  unfold step in Hstep. destruct (handler e g) as [h|] eqn:Hh; simplify_eq/=.
  destruct (commit_fields g h) as (_ & _ & _ & -> & _).
  destruct e; unfold_game; game_cases; lia.
Qed.

Lemma handler_not_initial e g h :
  handler e g = Some h → gameState h = initial → gameState g = initial.
Proof.
  destruct e; unfold_game; intros; game_cases; done.
Qed.

(** ** Before the first round, and while a round loads *)

Lemma reachable_initial g :
  reachable g →
  (gameState g = initial → g = init) ∧
  (gameState g ≠ initial → (1 ≤ numRounds (context g))%Z).
Proof.
  induction 1 as [|g e g' Hg [IHi IHn] Hstep]; [done|].
  pose proof (numRounds_step e g g' Hstep) as Hnum.
  unfold step in Hstep. destruct (handler e g) as [h|] eqn:Hh; simplify_eq/=.
  destruct (commit_fields g h) as (Hgs & _).
  destruct (decide (gameState g = initial)) as [Hi|Hi].
  - assert (Hinit : g = init) by auto. subst g. clear IHi IHn Hi Hg.
    destruct e; simpl in Hh; simplify_eq/=.
    + split; [done|]. intros _. lia.
    + split; [|done]. intros _. by rewrite commit_same_deps.
  - split.
    + rewrite Hgs. intros Hh'. by apply (handler_not_initial e g h) in Hh'.
    + intros _. rewrite Hnum. specialize (IHn Hi). destruct e; lia.
Qed.

(** X8: the first screen is left for good.  A state in which the game is
    ['initial'] is the state at mount, the round counter is 0 exactly
    then, and once the game has left ['initial'] no step brings it back. *)
Theorem X8_initial_only_at_mount g :
  reachable g →
  (gameState g = initial → g = init) ∧
  (numRounds (context g) = 0%Z ↔ gameState g = initial) ∧
  (gameState g ≠ initial →
     ∀ e g', step e g = Some g' → gameState g' ≠ initial).
Proof.
  intros Hg. destruct (reachable_initial g Hg) as [Hi Hn].
  split; [done|]. split.
  - split.
    + intros H0. destruct (decide (gameState g = initial)); [done|].
      specialize (Hn n). lia.
    + intros H. by rewrite (Hi H).
  - intros Hne e g' Hstep Hi'. apply Hne.
    unfold step in Hstep. destruct (handler e g) as [h|] eqn:Hh; simplify_eq/=.
    destruct (commit_fields g h) as (Hgs & _). rewrite Hgs in Hi'.
    by apply (handler_not_initial e g h).
Qed.

Lemma frameRendered_empty index g :
  imageData g = emptyImageData → frameRendered index g = false.
Proof.
  intros H. unfold frameRendered. rewrite H. simpl. apply andb_false_r.
Qed.

Lemma frameDone_gameState g m : gameState (frameDone g m) = gameState g.
Proof. destruct m as [i []]; done. Qed.

Lemma isGameRunning_true g : isGameRunning g = true → gameState g = running.
Proof. unfold isGameRunning. apply bool_decide_eq_true. Qed.

Lemma handler_loading e g h :
  isGameRunningRef g = isGameRunning g →
  handler e g = Some h → gameState h = loading →
  (gameState g = loading → is_reset g) → is_reset h.
Proof.
  intros Href Hh Hl IH. destruct e; unfold handler in Hh.
  - destruct (startClickable g); simplify_eq. done.
  - destruct (isGameRunning g); simplify_eq.
  - destruct (isGameRunning g) eqn:Hr; simplify_eq.
    apply isGameRunning_true in Hr. simpl in Hl. congruence.
  - simplify_eq. unfold handleAction in *.
    destruct (isGameRunning g) eqn:Hr; [|by apply IH].
    apply isGameRunning_true in Hr. simpl in Hl. congruence.
  - destruct (generating g); simplify_eq.
    destruct resp; simpl in Hl; [done|]. by apply IH.
  - destruct (frameRendered index g) eqn:Hf; simplify_eq.
    rewrite frameDone_gameState in Hl.
    destruct (IH Hl) as (_ & _ & _ & Hd & _).
    by rewrite (frameRendered_empty index g Hd) in Hf.
  - destruct (bool_decide (id ∈ intervals g)); simplify_eq.
    unfold tick in *. rewrite Href in *.
    destruct (isGameRunning g) eqn:Hr; simpl in Hl |- *; [|by apply IH].
    destruct (bool_decide (timeLeft g - 1 ≤ 0)%Z); simpl in Hl; [done|].
    apply isGameRunning_true in Hr. congruence.
  - destruct (evaluating g !! k); simplify_eq.
    destruct resp as [sc|]; simpl in Hl |- *; [|by apply IH].
    destruct (bool_decide (sc = 1%Z)); simpl in Hl |- *; [done|by apply IH].
Qed.

Lemma reachable_loading g :
  reachable g → gameState g = loading → is_reset g.
Proof.
  induction 1 as [|g e g' Hg IH Hstep]; [done|].
  destruct (reachable_synced g Hg) as [Href _].
  unfold step in Hstep. destruct (handler e g) as [h|] eqn:Hh; simplify_eq/=.
  destruct (commit_fields g h) as (Hgs & Htl & Hid & Hctx & _).
  destruct (commit_fields_more g h) as (Hci & Hgu & _).
  intros Hl. rewrite Hgs in Hl.
  destruct (handler_loading e g h Href Hh Hl IH) as (? & ? & ? & ? & ? & ?).
  unfold is_reset. rewrite Htl, Hid, Hctx, Hci, Hgu. done.
Qed.

(** X9: while the game is loading everything of the earlier round is
    gone: the time left is full, the frame index is 0, the guess is empty,
    there are no frames and no category or answer pair; the picture area
    is the placeholder, the info paragraph is empty and the start button
    is disabled and reads ["Loading..."].  Every start of a round leads
    into such a state, whatever the round before was. *)
Theorem X9_loading_is_reset g :
  reachable g →
  (gameState g = loading →
     is_reset g ∧ screen g = Placeholder ∧ infoPanel g = NoInfo ∧
     startClickable g = false ∧ startLabel g = "Loading...") ∧
  (∀ g', step ClickStart g = Some g' → gameState g' = loading).
Proof.
  intros Hg. split.
  - intros Hl. pose proof (reachable_loading g Hg Hl) as Hreset.
    destruct Hreset as (Ht & Hc & Hgu & Hd & Hca & Hcw).
    destruct (reachable_initial g Hg) as [_ Hn].
    assert (Hnew : isNewGame g = false).
    { unfold isNewGame. apply bool_decide_eq_false.
      assert (1 ≤ numRounds (context g))%Z by (apply Hn; congruence). lia. }
    split; [done|].
    unfold screen, infoPanel, startClickable, startDisabled, startLabel,
      isLoading, isGameRunning.
    rewrite Hnew, Hd, Hl. simpl. done.
  - intros g' Hstep. unfold step, handler in Hstep.
    destruct (startClickable g); simplify_eq/=.
    by destruct (commit_fields g (startGame g)) as (-> & _).
Qed.

(** ** Stopping, and intervals that outlive their round *)

(** X10: the Stop button ends the running round and nothing else: the
    score, the time left, the frames and the live intervals stay, and the
    button is gone ([stopGame] cannot be called again from it). *)
Theorem X10_stop_button g :
  gameState g = running →
  ∃ g', step ClickStop g = Some g' ∧
    gameState g' = ended ∧ context g' = context g ∧
    timeLeft g' = timeLeft g ∧ imageData g' = imageData g ∧
    intervals g' = intervals g ∧ step ClickStop g' = None.
Proof.
  intros Hrun. unfold step at 1. unfold handler, isGameRunning.
  rewrite bool_decide_true by done. eexists. split; [done|].
  destruct (commit_fields g (stopGame g)) as (Hgs & -> & -> & -> & _).
  destruct (commit_intervals g (stopGame g)) as [[_ ->]|(Hr & _)].
  - split_and!; try done.
    unfold step, handler, isGameRunning. rewrite Hgs. done.
  - unfold isGameRunning in Hr. simpl in Hr. done.
Qed.

(** X11: an interval that fires while the game is not running clears
    itself and changes nothing else; it cannot fire again. *)
Theorem X11_stale_interval_clears_itself g id :
  reachable g → gameState g ≠ running → id ∈ intervals g →
  step (Tick id) g = Some (clearInterval id g) ∧
  step (Tick id) (clearInterval id g) = None.
Proof.
  intros Hg Hnr Hid. destruct (reachable_synced g Hg) as [Href _].
  split.
  - apply step_tick_stopped; [|done].
    rewrite Href. unfold isGameRunning. by apply bool_decide_eq_false.
  - unfold step, handler. rewrite bool_decide_false; [done|].
    simpl. apply not_elem_of_difference. right. by apply elem_of_singleton.
Qed.

Lemma commit_armed prev g : armed (commit prev g) = armed g.
Proof.
  unfold armed, isGameRunning, ready.
  by destruct (commit_fields prev g) as (-> & _ & -> & _).
Qed.

Lemma commit_arming prev g :
  (armed prev = false ∧ armed g = true →
     nextInterval (commit prev g) = S (nextInterval g) ∧
     intervals (commit prev g) = {[nextInterval g]} ∪ intervals g) ∧
  (¬ (armed prev = false ∧ armed g = true) →
     nextInterval (commit prev g) = nextInterval g ∧
     intervals (commit prev g) = intervals g).
Proof.
  unfold commit.
  set (g1 := if bool_decide (isGameRunning prev = isGameRunning g) then g
             else setIsGameRunningRef (isGameRunning g) g).
  assert (E1 : gameState g1 = gameState g ∧ imageData g1 = imageData g ∧
               nextInterval g1 = nextInterval g ∧ intervals g1 = intervals g)
    by (subst g1; case_bool_decide; done).
  set (g2 := if bool_decide (timeLeft prev = timeLeft g1) then g1
             else setTimeLeftRef (timeLeft g1) g1).
  assert (E2 : gameState g2 = gameState g ∧ imageData g2 = imageData g ∧
               nextInterval g2 = nextInterval g ∧ intervals g2 = intervals g)
    by (subst g2; case_bool_decide; done).
  clearbody g2. clear g1 E1. destruct E2 as (Egs & Eid & En & Ei).
  assert (Er : isGameRunning g2 = isGameRunning g)
    by (unfold isGameRunning; by rewrite Egs).
  assert (Ey : ready g2 = ready g) by (unfold ready; by rewrite Eid).
  unfold armed, mainEffect, setInterval. rewrite Er, Ey.
  destruct (isGameRunning prev), (ready prev), (isGameRunning g), (ready g);
    simpl.
  all: try case_bool_decide; simpl; rewrite ?En, ?Ei;
    split; intros Harm; try done;
    try (by exfalso; apply Harm); try (by destruct Harm);
    try (by exfalso; intuition congruence).
Qed.

(** X12: a step starts an interval exactly when it makes the game running
    with all frames ready, and then it starts one; no other step adds a
    live interval. *)
Theorem X12_interval_started_iff_armed e g g' :
  step e g = Some g' →
  (armed g = false ∧ armed g' = true →
     nextInterval g' = S (nextInterval g) ∧ nextInterval g ∈ intervals g') ∧
  (¬ (armed g = false ∧ armed g' = true) →
     nextInterval g' = nextInterval g ∧ intervals g' ⊆ intervals g).
Proof.
  unfold step. intros Hstep.
  destruct (handler e g) as [h|] eqn:Hh; simplify_eq/=.
  destruct (handler_intervals _ _ _ Hh) as [Hn Hsub].
  rewrite commit_armed. destruct (commit_arming g h) as [Harm Hnot].
  split; intros Hcase.
  - destruct (Harm Hcase) as [-> ->]. rewrite Hn. split; [done|].
    apply elem_of_union. left. by apply elem_of_singleton.
  - destruct (Hnot Hcase) as [-> ->]. done.
Qed.

(** X13: a live interval always has a handle that [setInterval] has
    returned, so no timer fires before the first time the game runs with
    all frames ready. *)
Theorem X13_no_timer_before_first_start g :
  reachable g →
  (∀ id, id ∈ intervals g → id < nextInterval g) ∧
  (nextInterval g = 0 → ∀ id, step (Tick id) g = None).
Proof.
  intros Hg. split.
  - by apply reachable_intervals_bound.
  - intros Hn id. by apply no_tick_before_first_interval.
Qed.

(** ** What the player sees *)

Lemma frameRendered_lt index g :
  frameRendered index g = true → index < length (images (imageData g)).
Proof.
  unfold frameRendered. intros Hf. apply andb_true_iff in Hf as [_ Hf].
  by apply bool_decide_eq_true in Hf.
Qed.

Lemma frameOpacity_full index g :
  frameOpacity index g = "opacity-100" ↔
  Z.of_nat index = currentImageIndex g.
Proof.
  unfold frameOpacity. case_bool_decide; split; done.
Qed.

(** X2: between events the frame index is within 0..NUM_IMAGES - 1.  Of
    the frames that are rendered at most one has full opacity, the one at
    the frame index; a round with at least NUM_IMAGES frames always has
    that frame rendered, so exactly one of its frames has full opacity.
    A round with fewer frames can have none: with 3 frames, after 8
    seconds the frame index is 3 and every rendered frame is
    transparent. *)
Theorem X2_frame_index_range :
  (∀ g, reachable g →
     (0 ≤ currentImageIndex g ≤ NUM_IMAGES - 1)%Z ∧
     (∀ i j, frameRendered i g = true → frameRendered j g = true →
             frameOpacity i g = "opacity-100" →
             frameOpacity j g = "opacity-100" → i = j) ∧
     (Z.to_nat NUM_IMAGES ≤ length (images (imageData g)) →
      ∃ i, frameRendered i g = true ∧ frameOpacity i g = "opacity-100")) ∧
  (∃ g, run three_frames_8_seconds init = Some g ∧
        length (images (imageData g)) = 3 ∧ currentImageIndex g = 3%Z ∧
        ∀ i, frameRendered i g = true → frameOpacity i g = "opacity-0").
Proof.
  split.
  - intros g Hg. pose proof (reachable_index_range g Hg) as Hr.
    split; [done|]. change (NUM_IMAGES - 1)%Z with 9%Z in Hr. split.
    + intros i j _ _ Hi Hj. apply frameOpacity_full in Hi, Hj. lia.
    + change (Z.to_nat NUM_IMAGES) with 10. intros Hlen.
      exists (Z.to_nat (currentImageIndex g)). split.
      * unfold frameRendered. apply andb_true_iff. split.
        -- apply negb_true_iff, andb_false_iff. right.
           apply bool_decide_eq_false. intros Hi.
           destruct (reachable_initial g Hg) as [Hinit _].
           rewrite (Hinit Hi) in Hlen. simpl in Hlen. lia.
        -- apply bool_decide_eq_true. lia.
      * apply frameOpacity_full. lia.
  - eexists. split; [vm_compute; reflexivity|].
    split; [vm_compute; reflexivity|]. split; [vm_compute; reflexivity|].
    intros i Hi. apply frameRendered_lt in Hi.
    change (i < 3) in Hi.
    destruct i as [|[|[|i]]]; [vm_compute; reflexivity ..|lia].
Qed.

(** X14: the answer pair is shown only when the round has ended, and the
    category pair only while it runs; before the first start and while
    loading the paragraph is empty. *)
Theorem X14_info_panel g :
  reachable g →
  (∀ w0 w1, infoPanel g = ShowCorrectWords w0 w1 → gameState g = ended) ∧
  (∀ c0 c1, infoPanel g = ShowCategories c0 c1 → gameState g = running) ∧
  (gameState g = initial ∨ gameState g = loading → infoPanel g = NoInfo).
Proof.
  intros Hg.
  assert (Hempty : gameState g = initial ∨ gameState g = loading →
                   images (imageData g) = []).
  { intros [Hi|Hl].
    - destruct (reachable_initial g Hg) as [Hinit _]. by rewrite (Hinit Hi).
    - destruct (reachable_loading g Hg Hl) as (_ & _ & _ & -> & _). done. }
  assert (Hno : gameState g = initial ∨ gameState g = loading →
                infoPanel g = NoInfo).
  { intros H. unfold infoPanel. by rewrite (Hempty H). }
  split_and!; [| |done].
  - intros w0 w1. unfold infoPanel, isGameEnded.
    repeat case_match; try done.
    intros _. apply andb_true_iff in H1 as [H1 _].
    by apply bool_decide_eq_true in H1.
  - intros c0 c1 Hc. destruct (gameState g) eqn:Hgs; try done.
    + rewrite Hno in Hc by auto. done.
    + rewrite Hno in Hc by auto. done.
    + revert Hc. unfold infoPanel, isGameRunning, isLoading. rewrite Hgs.
      simpl. repeat case_match; done.
Qed.

(** X15: which label the start button has.  While the game is not
    running it reads ["Start Game"] exactly before the first round,
    ["Loading..."] exactly when it is disabled, and ["Next Round"] exactly
    when a further round can be started. *)
Theorem X15_start_button_label g :
  reachable g → gameState g ≠ running →
  (startLabel g = "Start Game" ↔ gameState g = initial) ∧
  (startLabel g = "Loading..." ↔ startDisabled g = true) ∧
  (startLabel g = "Next Round" ↔
     startClickable g = true ∧ gameState g ≠ initial).
Proof.
  intros Hg Hnr. destruct (reachable_initial g Hg) as [Hinit Hn].
  destruct (decide (gameState g = initial)) as [Hi|Hi].
  - rewrite (Hinit Hi). split_and!; split; try done.
    intros [_ H]. done.
  - assert (Hnew : isNewGame g = false).
    { unfold isNewGame. apply bool_decide_eq_false. specialize (Hn Hi). lia. }
    assert (Hr : isGameRunning g = false)
      by (unfold isGameRunning; by apply bool_decide_eq_false).
    unfold startLabel, startClickable. rewrite Hnew, Hr.
    fold (startDisabled g). simpl. rewrite orb_false_r.
    destruct (startDisabled g); split_and!; split; try done.
    intros [Hd _]. done.
Qed.

(** X16: the colour of the time display after a firing of the timer in a
    running round: green down to 11 seconds left, yellow from 10 to 6, red
    from 5 to 1, and green again after the firing at 1 second, which puts
    the time back to 20. *)
Theorem X16_time_colour_after_tick g id :
  reachable g → gameState g = running → id ∈ intervals g →
  ∃ g', step (Tick id) g = Some g' ∧
    getTimeColor g' =
      if bool_decide (timeLeft g = 1)%Z then "text-green-500"
      else if bool_decide (timeLeft g ≤ 6)%Z then "text-red-500"
      else if bool_decide (timeLeft g ≤ 11)%Z then "text-yellow-500"
      else "text-green-500".
Proof.
  intros Hg Hrun Hid. pose proof (reachable_timeLeft_range g Hg) as Ht.
  apply reachable_synced in Hg.
  destruct (decide (timeLeft g = 1)%Z) as [H1|H1].
  - eexists. split; [apply step_tick_timeout; first [done | lia]|].
    rewrite bool_decide_true by done. done.
  - eexists. split; [apply step_tick_running; first [done | lia]|].
    rewrite (bool_decide_false (timeLeft g = 1)%Z) by done.
    unfold getTimeColor. simpl.
    repeat case_bool_decide; first [done | lia].
Qed.

(** ** The barrier once it is ready, and the arrival of the payload *)

Lemma register_not_ready imgs : allImagesReady (register imgs) = false.
Proof.
  unfold allImagesReady, register. simpl. case_bool_decide; [done|].
  rewrite map_size_empty. rewrite bool_decide_false; done.
Qed.

Lemma ready_lookup d index :
  (∀ k, is_Some (loaded d !! k) → k < length (images d)) →
  index < length (images d) → allImagesReady d = true →
  loaded d !! index = Some true.
Proof.
  intros Hkeys Hi. unfold allImagesReady. case_bool_decide; [done|].
  rewrite andb_true_iff, bool_decide_eq_true, every_loaded_true.
  intros [Hsize Hall].
  assert (Hsub : dom (loaded d) ⊆ set_seq (C := gset nat) 0 (length (images d))).
  { intros k Hk. apply elem_of_dom in Hk. apply elem_of_set_seq.
    split; [lia|]. by apply Hkeys. }
  assert (Heq : dom (loaded d) = set_seq (C := gset nat) 0 (length (images d))).
  { apply set_subseteq_size_eq; [done|].
    rewrite size_set_seq, size_dom. lia. }
  assert (Hin : index ∈ dom (loaded d)).
  { rewrite Heq. apply elem_of_set_seq. lia. }
  apply elem_of_dom in Hin as [v Hv]. rewrite Hv. f_equal. by eapply Hall.
Qed.

(** X18: once all frames are ready, with every loaded key the index of a
    frame, a further load result for a frame leaves the image data as it
    is: the barrier stays ready, and a repeated [onLoad] is a step that
    changes nothing. *)
Theorem X18_ready_is_stable g index :
  (∀ k, is_Some (loaded (imageData g) !! k) →
        k < length (images (imageData g))) →
  frameRendered index g = true → ready g = true →
  markLoaded index (imageData g) = imageData g ∧
  step (FrameDone index LoadOk) g = Some g.
Proof.
  intros Hkeys Hf Hready.
  assert (Hi : index < length (images (imageData g))).
  { unfold frameRendered in Hf. apply andb_true_iff in Hf as [_ Hf].
    by apply bool_decide_eq_true in Hf. }
  assert (Hmark : markLoaded index (imageData g) = imageData g).
  { unfold markLoaded. rewrite insert_id by by apply ready_lookup.
    by destruct (imageData g). }
  split; [done|].
  unfold step, handler. rewrite Hf. simpl.
  unfold frameDone, handleImageLoad, updateImageData. simpl.
  rewrite Hmark.
  replace (setImageData (imageData g) g) with g by by destruct g.
  by rewrite commit_same_deps.
Qed.

(** X19: when a response whose body holds its three arrays arrives while
    the game is loading, the game runs with the frames, categories and
    words of the body, the full time and frame 0, and with no frame marked
    loaded: the barrier is not ready and no interval is started by this
    step, however many frames the body has. *)
Theorem X19_payload_received g n data :
  reachable g → gameState g = loading → generating g = S n →
  ∃ g', step (GenerateDone (Some data)) g = Some g' ∧
    gameState g' = running ∧
    imageData g' = register (data_images data) ∧
    categories (context g') = data_categories data ∧
    correctWords (context g') = data_correctWords data ∧
    timeLeft g' = TIME_PER_ROUND ∧ currentImageIndex g' = 0%Z ∧
    ready g' = false ∧
    nextInterval g' = nextInterval g ∧ intervals g' = intervals g.
Proof.
  intros Hg Hl Hgen.
  destruct (reachable_loading g Hg Hl) as (Ht & Hc & _ & Hd & _).
  unfold step, handler. rewrite Hgen. cbn [fmap option_fmap option_map].
  set (h := (startGame_resume (Some data) (setGenerating n g)).1).
  eexists. split; [done|].
  destruct (commit_fields g h) as (Hgs & Htl & Hid & Hctx & _).
  destruct (commit_fields_more g h) as (Hci & _).
  assert (Hdata : imageData h = register (data_images data)).
  { subst h. simpl. unfold updateImageData. simpl. by rewrite Hd. }
  assert (Hnot : ¬ (armed g = false ∧ armed h = true)).
  { intros [_ Ha]. unfold armed, ready in Ha. rewrite Hdata in Ha.
    rewrite register_not_ready in Ha. by rewrite andb_false_r in Ha. }
  destruct (commit_arming g h) as [_ Hsame].
  destruct (Hsame Hnot) as [Hn Hi].
  rewrite Hgs, Htl, Hctx, Hci, Hn, Hi. unfold ready. rewrite Hid, Hdata.
  split_and!; try done. apply register_not_ready.
Qed.

(** X20: a load result of a frame, failed or not, marks the frame and does
    nothing else to the round: the game state, the time left, the frame
    index and the session store stay; a failure adds one console line. *)
Theorem X20_frame_result_is_absorbed g index r g' :
  step (FrameDone index r) g = Some g' →
  index < length (images (imageData g)) ∧
  imageData g' = markLoaded index (imageData g) ∧
  gameState g' = gameState g ∧ timeLeft g' = timeLeft g ∧
  currentImageIndex g' = currentImageIndex g ∧ context g' = context g ∧
  console g' =
    console g ++
      match r with
      | LoadOk => []
      | LoadFailed => ["Failed to load image at index " +:+ pretty index]
      end.
Proof.
  unfold step, handler. intros Hstep.
  destruct (frameRendered index g) eqn:Hf; simplify_eq/=.
  destruct (commit_fields g (frameDone g (index, r)))
    as (-> & -> & -> & -> & _).
  destruct (commit_fields_more g (frameDone g (index, r)))
    as (-> & _ & _ & ->).
  split.
  { unfold frameRendered in Hf. apply andb_true_iff in Hf as [_ Hf].
    by apply bool_decide_eq_true in Hf. }
  destruct r; simpl; split_and!; try done. by rewrite app_nil_r.
Qed.

(** ** A generate call that brings no round *)

Lemma frameRendered_no_images index g :
  images (imageData g) = [] → frameRendered index g = false.
Proof.
  intros H. unfold frameRendered. rewrite H. simpl. apply andb_false_r.
Qed.

(** C7 as the code has it, while the game is loading.  When the generate
    call fails (the request fails or its body does not parse), the error
    is logged and thrown again, [startGame]'s promise is rejected, and
    everything but the console stays as it was: the game state is still
    ['loading'], the round counter keeps its increment and [startGame]
    cannot be called.  When the response holds an empty frame sequence,
    nothing fails: [startGame]'s promise is fulfilled, nothing is logged,
    and the game is ['running'] without frames, where the barrier is not
    ready, no interval is started and no frame can report a load. *)
Theorem C7_generate_failure g n :
  gameState g = loading → generating g = S n →
  (∃ g', step (GenerateDone None) g = Some g' ∧
     g' = console_error "Error fetching image:" (setGenerating n g) ∧
     snd (startGame_resume None (setGenerating n g)) = rejected ∧
     gameState g' = loading ∧ context g' = context g ∧
     startClickable g' = false) ∧
  (∀ data, data_images data = [] →
     ∃ g', step (GenerateDone (Some data)) g = Some g' ∧
       snd (startGame_resume (Some data) (setGenerating n g)) = fulfilled ∧
       gameState g' = running ∧ console g' = console g ∧
       images (imageData g') = [] ∧ ready g' = false ∧
       nextInterval g' = nextInterval g ∧ intervals g' = intervals g ∧
       (∀ index r, step (FrameDone index r) g' = None)).
Proof.
  intros Hload Hgen. split.
  - eexists. split.
    + unfold step, handler. rewrite Hgen. simpl. by rewrite commit_same_deps.
    + split_and!; try done.
      unfold startClickable, startDisabled, isGameRunning, isLoading. simpl.
      rewrite Hload. simpl. by rewrite andb_false_r.
  - intros data Hempty.
    unfold step at 1. unfold handler. rewrite Hgen.
    cbn [fmap option_fmap option_map].
    set (h := (startGame_resume (Some data) (setGenerating n g)).1).
    eexists. split; [done|].
    destruct (commit_fields g h) as (Hgs & _ & Hid & _).
    destruct (commit_fields_more g h) as (_ & _ & _ & Hcon).
    assert (Himg : images (imageData h) = []) by (subst h; simpl; done).
    assert (Hnr : allImagesReady (imageData h) = false).
    { unfold allImagesReady. rewrite Himg. done. }
    assert (Hnot : ¬ (armed g = false ∧ armed h = true)).
    { intros [_ Ha]. unfold armed, ready in Ha. rewrite Hnr in Ha.
      by rewrite andb_false_r in Ha. }
    destruct (commit_arming g h) as [_ Hsame].
    destruct (Hsame Hnot) as [Hn Hi].
    rewrite Hgs, Hcon, Hn, Hi. unfold ready. rewrite Hid, Himg, Hnr.
    split_and!; try done.
    intros index r. unfold step, handler.
    rewrite frameRendered_no_images; [done|]. by rewrite Hid.
Qed.

(** ** The further statements at sample rounds *)

Lemma X1_time_left_range_witness :
  (1 ≤ timeLeft (after guess_at_5) ≤ TIME_PER_ROUND)%Z.
Proof.
  apply (X1_time_left_range (after guess_at_5)).
  apply after_reachable. vm_compute. eauto.
Defined.

Lemma X2_frame_index_range_witness :
  (0 ≤ currentImageIndex (after guess_at_5) ≤ NUM_IMAGES - 1)%Z ∧
  ∃ i, frameRendered i (after guess_at_5) = true ∧
       frameOpacity i (after guess_at_5) = "opacity-100".
Proof.
  destruct X2_frame_index_range as [Hall _].
  destruct (Hall (after guess_at_5)) as (Hrange & _ & Hex).
  - apply after_reachable. vm_compute. eauto.
  - split; [exact Hrange|]. apply Hex. vm_compute. lia.
Defined.

Lemma X3_refs_follow_state_witness :
  isGameRunningRef (after guess_at_5) = isGameRunning (after guess_at_5) ∧
  timeLeftRef (after guess_at_5) = timeLeft (after guess_at_5).
Proof.
  apply (X3_refs_follow_state (after guess_at_5)).
  apply after_reachable. vm_compute. eauto.
Defined.

Lemma X4_countdown_and_frame_lag_witness :
  ∃ g', run (Tick <$> replicate 5 0) (after round_ready) = Some g' ∧
        timeLeft g' = (timeLeft (after round_ready) - 5)%Z ∧
        currentImageIndex g' = newImageIndex (TIME_PER_ROUND - timeLeft g' - 1).
Proof.
  destruct (X4_countdown_and_frame_lag (after round_ready) (replicate 5 0))
    as (g' & Hrun & _ & Ht & Hi & _).
  - apply after_reachable. vm_compute. eauto.
  - vm_compute. reflexivity.
  - apply (bool_decide_unpack _). vm_compute. exact I.
  - vm_compute. lia.
  - vm_compute. reflexivity.
  - exists g'. split; [exact Hrun|]. split; [exact Ht | exact Hi].
Defined.

Lemma X5_score_steps_witness :
  score (context (after won_at_5)) = score (context (after guess_at_5)) ∨
  (∃ k, EvaluateDone 0 (Some 1%Z) = EvaluateDone k (Some 1%Z) ∧
     score (context (after won_at_5)) =
       (score (context (after guess_at_5)) + timeLeft (after guess_at_5) * 10)%Z ∧
     (10 ≤ timeLeft (after guess_at_5) * 10 ≤ 200)%Z).
Proof.
  apply (X5_score_steps (EvaluateDone 0 (Some 1%Z)) (after guess_at_5)
           (after won_at_5)).
  - apply after_reachable. vm_compute. eauto.
  - vm_compute. reflexivity.
Defined.

Lemma X6_round_counter_steps_witness :
  numRounds (context (after [ClickStart])) = (numRounds (context init) + 1)%Z.
Proof.
  apply (X6_round_counter_steps ClickStart init (after [ClickStart])).
  vm_compute. reflexivity.
Defined.

Lemma X7_score_invariant_witness :
  (0 ≤ score (context (after won_at_5)))%Z ∧
  (10 | score (context (after won_at_5)))%Z.
Proof.
  apply (X7_score_invariant (after won_at_5)).
  apply after_reachable. vm_compute. eauto.
Defined.

Lemma X8_initial_only_at_mount_witness :
  numRounds (context (after [ClickStart])) = 0%Z ↔
  gameState (after [ClickStart]) = initial.
Proof.
  apply (X8_initial_only_at_mount (after [ClickStart])).
  apply after_reachable. vm_compute. eauto.
Defined.

Lemma X9_loading_is_reset_witness :
  is_reset (after (stopped_round ++ [ClickStart])) ∧
  screen (after (stopped_round ++ [ClickStart])) = Placeholder.
Proof.
  destruct (X9_loading_is_reset (after (stopped_round ++ [ClickStart])))
    as [Hload _].
  - apply after_reachable. vm_compute. eauto.
  - destruct Hload as (Hreset & Hscreen & _).
    + vm_compute. reflexivity.
    + split; [exact Hreset | exact Hscreen].
Defined.

Lemma X10_stop_button_witness :
  ∃ g', step ClickStop (after round_ready) = Some g' ∧
        gameState g' = ended ∧ step ClickStop g' = None.
Proof.
  destruct (X10_stop_button (after round_ready))
    as (g' & Hstep & Hend & _ & _ & _ & _ & Hnone).
  - vm_compute. reflexivity.
  - exists g'. split; [exact Hstep|]. split; [exact Hend | exact Hnone].
Defined.

Lemma X11_stale_interval_clears_itself_witness :
  step (Tick 0) (after stopped_round) =
    Some (clearInterval 0 (after stopped_round)) ∧
  step (Tick 0) (clearInterval 0 (after stopped_round)) = None.
Proof.
  apply (X11_stale_interval_clears_itself (after stopped_round) 0).
  - apply after_reachable. vm_compute. eauto.
  - vm_compute. discriminate.
  - apply (bool_decide_unpack _). vm_compute. exact I.
Defined.

Lemma X12_interval_started_iff_armed_witness :
  nextInterval (after round_ready) = S (nextInterval (after nine_frames_done)) ∧
  nextInterval (after nine_frames_done) ∈ intervals (after round_ready).
Proof.
  apply (X12_interval_started_iff_armed (FrameDone 9 LoadOk)
           (after nine_frames_done) (after round_ready)).
  - vm_compute. reflexivity.
  - split; vm_compute; reflexivity.
Defined.

Lemma X13_no_timer_before_first_start_witness :
  step (Tick 0) (after round_started) = None.
Proof.
  destruct (X13_no_timer_before_first_start (after round_started))
    as [_ Hnone].
  - apply after_reachable. vm_compute. eauto.
  - apply Hnone. vm_compute. reflexivity.
Defined.

Lemma X14_info_panel_witness :
  infoPanel (after [ClickStart]) = NoInfo.
Proof.
  destruct (X14_info_panel (after [ClickStart])) as (_ & _ & Hnone).
  - apply after_reachable. vm_compute. eauto.
  - apply Hnone. right. vm_compute. reflexivity.
Defined.

Lemma X15_start_button_label_witness :
  startLabel (after stopped_round) = "Next Round" ↔
  startClickable (after stopped_round) = true ∧
  gameState (after stopped_round) ≠ initial.
Proof.
  apply (X15_start_button_label (after stopped_round)).
  - apply after_reachable. vm_compute. eauto.
  - vm_compute. discriminate.
Defined.

Lemma X16_time_colour_after_tick_witness :
  ∃ g', step (Tick 0) (after guess_at_5) = Some g' ∧
        getTimeColor g' = "text-red-500".
Proof.
  destruct (X16_time_colour_after_tick (after guess_at_5) 0)
    as (g' & Hstep & Hcol).
  - apply after_reachable. vm_compute. eauto.
  - vm_compute. reflexivity.
  - apply (bool_decide_unpack _). vm_compute. exact I.
  - exists g'. split; [exact Hstep|]. rewrite Hcol. vm_compute. reflexivity.
Defined.

Lemma X18_ready_is_stable_witness :
  step (FrameDone 3 LoadOk) (after round_ready) = Some (after round_ready).
Proof.
  apply (X18_ready_is_stable (after round_ready) 3).
  - intros k Hk. apply elem_of_dom in Hk.
    assert (Hdom : dom (loaded (imageData (after round_ready)))
                   = set_seq (C := gset nat) 0 10)
      by (vm_compute; reflexivity).
    rewrite Hdom in Hk. apply elem_of_set_seq in Hk.
    change (length (images (imageData (after round_ready)))) with 10. lia.
  - vm_compute. reflexivity.
  - vm_compute. reflexivity.
Defined.

Lemma X19_payload_received_witness :
  ∃ g', step (GenerateDone (Some eagle_banana)) (after [ClickStart]) = Some g' ∧
        gameState g' = running ∧ ready g' = false ∧
        intervals g' = intervals (after [ClickStart]).
Proof.
  destruct (X19_payload_received (after [ClickStart]) 0 eagle_banana)
    as (g' & Hstep & Hrun & _ & _ & _ & _ & _ & Hready & _ & Hint).
  - apply after_reachable. vm_compute. eauto.
  - vm_compute. reflexivity.
  - vm_compute. reflexivity.
  - exists g'. split; [exact Hstep|]. split; [exact Hrun|].
    split; [exact Hready | exact Hint].
Defined.

Lemma X20_frame_result_is_absorbed_witness :
  gameState (after (round_started ++ [FrameDone 3 LoadFailed])) =
    gameState (after round_started) ∧
  console (after (round_started ++ [FrameDone 3 LoadFailed])) =
    console (after round_started) ++ ["Failed to load image at index 3"].
Proof.
  destruct (X20_frame_result_is_absorbed (after round_started) 3 LoadFailed
              (after (round_started ++ [FrameDone 3 LoadFailed])))
    as (_ & _ & Hgs & _ & _ & _ & Hcon).
  - vm_compute. reflexivity.
  - split; [exact Hgs | exact Hcon].
Defined.

Lemma C7_generate_failure_witness :
  (∃ g', step (GenerateDone None) (after [ClickStart]) = Some g' ∧
         gameState g' = loading ∧ startClickable g' = false) ∧
  (∃ g', step (GenerateDone (Some no_frames)) (after [ClickStart]) = Some g' ∧
         gameState g' = running ∧ ready g' = false).
Proof.
  destruct (C7_generate_failure (after [ClickStart]) 0) as [Hfail Hempty].
  - vm_compute. reflexivity.
  - vm_compute. reflexivity.
  - split.
    + destruct Hfail as (g' & Hstep & _ & _ & Hload & _ & Hclick).
      exists g'. split; [exact Hstep|]. split; [exact Hload | exact Hclick].
    + destruct (Hempty no_frames) as (g' & Hstep & _ & Hrun & _ & _ & Hr & _).
      * reflexivity.
      * exists g'. split; [exact Hstep|]. split; [exact Hrun | exact Hr].
Defined.
